(** * clean_json.py: partition of scraped records, cleaned output and backup

    A shallow embedding of [src/clean_json.py].  The script is a straight
    line of statements over three files and the console; it is embedded as
    a computation over a [world] (file system and console) that can raise
    a Python exception.  The calls into CPython's [json] package
    ([json.load], [json.dump] with [ensure_ascii=False, indent=4]) and the
    text layer of [open(..., encoding='utf-8')] are embedded from CPython
    3.11 ([Lib/json/decoder.py], [Lib/json/scanner.py],
    [Lib/json/encoder.py]); where the C accelerator and the Python code of
    the scanner differ (digits and hexadecimal digits outside ASCII) the
    accelerator, which CPython uses, is followed.

    Not modelled: the interpreter's resource limits (recursion depth, the
    4300-digit limit of [int], memory), failures of the operating system
    other than a missing file, and the encoding of the console. Text files
    are written with the POSIX line separator.

    The file has the model first (the runtime, the text layer, the [json]
    package, the script), then the vocabulary of the statements and the
    data of the examples, then the lemmas, the ten claims of the
    specification (C1 to C10), the further properties of the script (X1
    to X23) and what they all say of the examples. *)

From stdpp Require Import gmap strings list fin_maps.
From Stdlib Require Import ZArith Lia.

Set Warnings "-register-all".
Local Open Scope Z_scope.

(** ** Python strings

    A Python [str] is a sequence of code points; lone surrogates are
    legal in a [str] (and [json.load] produces them from [\udXXX]
    escapes), which matters when the text is encoded. *)

Definition pystr := list Z.

Definition ord (a : Ascii.ascii) : Z := Z.of_N (Ascii.N_of_ascii a).

(** A [str] literal of the source, written with ASCII characters. *)
Definition lit (s : string) : pystr := ord <$> String.list_ascii_of_string s.

(** [s.startswith(sub)] *)
Fixpoint startswith (s sub : pystr) {struct sub} : bool :=
  match sub, s with
  | [], _ => true
  | c :: sub', d :: s' => bool_decide (c = d) && startswith s' sub'
  | _ :: _, [] => false
  end.

(** [sub in s] for two strings: [sub] occurs somewhere in [s]. *)
Fixpoint str_contains (s sub : pystr) : bool :=
  startswith s sub ||
  match s with
  | [] => false
  | _ :: s' => str_contains s' sub
  end.

(** ** The part of the Python runtime taken as a parameter

    Floating-point numbers and [repr] of strings are not defined by this
    repository nor by the [json] package: [float(s)], [float.__repr__],
    [==] on floats and [str.__repr__] are operations of the interpreter. *)

Class PyRuntime := {
  pyfloat : Type;
  (** [float(s)] for [s] a JSON number literal, ['nan'], ['inf'], ['-inf'] *)
  float_of_str : pystr -> pyfloat;
  (** [float.__repr__] *)
  float_repr : pyfloat -> pystr;
  (** [==] on two floats *)
  float_eq : pyfloat -> pyfloat -> bool;
  (** [str.__repr__] *)
  str_repr : pystr -> pystr;
}.

(** Exceptions the script can die of. *)
Inductive exn : Type :=
| FileNotFoundError
| UnicodeDecodeError
| JSONDecodeError
| UnicodeEncodeError
| TypeError
| AttributeError.

Definition result (A : Type) : Type := exn + A.

Definition rbind {A B} (m : result A) (k : A -> result B) : result B :=
  match m with
  | inl e => inl e
  | inr a => k a
  end.

(** ** The text layer of [open(path, mode, encoding='utf-8')]

    The strict UTF-8 codec. Encoding refuses surrogates (and anything
    that is not a code point); decoding refuses overlong forms, encoded
    surrogates and anything above U+10FFFF. A byte is a [Z] below 256. *)

Definition utf8_encode_char (c : Z) : option (list Z) :=
  if (0 <=? c) && (c <? 0x80) then Some [c]
  else if (0x80 <=? c) && (c <? 0x800) then
    Some [0xC0 + c / 64; 0x80 + c mod 64]
  else if (0xD800 <=? c) && (c <=? 0xDFFF) then None
  else if (0x800 <=? c) && (c <? 0x10000) then
    Some [0xE0 + c / 4096; 0x80 + (c / 64) mod 64; 0x80 + c mod 64]
  else if (0x10000 <=? c) && (c <=? 0x10FFFF) then
    Some [0xF0 + c / 262144; 0x80 + (c / 4096) mod 64;
          0x80 + (c / 64) mod 64; 0x80 + c mod 64]
  else None.

Fixpoint utf8_encode (s : pystr) : option (list Z) :=
  match s with
  | [] => Some []
  | c :: s' =>
      match utf8_encode_char c, utf8_encode s' with
      | Some bs, Some bs' => Some (bs ++ bs')
      | _, _ => None
      end
  end.

Definition is_cont (b : Z) : bool := (0x80 <=? b) && (b <=? 0xBF).

Fixpoint utf8_decode (bs : list Z) : option pystr :=
  match bs with
  | [] => Some []
  | b0 :: r0 =>
      if (0 <=? b0) && (b0 <? 0x80) then cons b0 <$> utf8_decode r0
      else if (0xC2 <=? b0) && (b0 <=? 0xDF) then
        match r0 with
        | b1 :: r1 =>
            if is_cont b1
            then cons ((b0 - 0xC0) * 64 + (b1 - 0x80)) <$> utf8_decode r1
            else None
        | _ => None
        end
      else if (0xE0 <=? b0) && (b0 <=? 0xEF) then
        match r0 with
        | b1 :: b2 :: r2 =>
            if is_cont b1 && is_cont b2
               && (negb (b0 =? 0xE0) || (0xA0 <=? b1))
               && (negb (b0 =? 0xED) || (b1 <=? 0x9F))
            then cons ((b0 - 0xE0) * 4096 + (b1 - 0x80) * 64 + (b2 - 0x80))
                   <$> utf8_decode r2
            else None
        | _ => None
        end
      else if (0xF0 <=? b0) && (b0 <=? 0xF4) then
        match r0 with
        | b1 :: b2 :: b3 :: r3 =>
            if is_cont b1 && is_cont b2 && is_cont b3
               && (negb (b0 =? 0xF0) || (0x90 <=? b1))
               && (negb (b0 =? 0xF4) || (b1 <=? 0x8F))
            then cons ((b0 - 0xF0) * 262144 + (b1 - 0x80) * 4096
                       + (b2 - 0x80) * 64 + (b3 - 0x80))
                   <$> utf8_decode r3
            else None
        | _ => None
        end
      else None
  end.

(** Reading in text mode with the default [newline=None]: [\r\n] and a
    lone [\r] become [\n]. *)
Fixpoint universal_newlines (s : pystr) : pystr :=
  match s with
  | [] => []
  | c :: s' =>
      if c =? 13 then
        10 :: match s' with
              | [] => []
              | d :: s'' =>
                  if d =? 10 then universal_newlines s''
                  else universal_newlines s'
              end
      else c :: universal_newlines s'
  end.

(** ** The world: files and console *)

Record world : Type := World {
  files : gmap string (list Z);
  console : list pystr;
}.

(** A statement runs in a world and ends normally or with an exception;
    what was written before the exception stays written. *)
Definition prog (A : Type) : Type := world -> world * result A.

Definition ret {A} (a : A) : prog A := fun w => (w, inr a).

Definition bind {A B} (m : prog A) (k : A -> prog B) : prog B :=
  fun w =>
    match m w with
    | (w', inl e) => (w', inl e)
    | (w', inr a) => k a w'
    end.

Definition lift {A} (r : result A) : prog A := fun w => (w, r).

Notation "x <- m ;; k" := (bind m (fun x => k))
  (at level 100, m at next level, right associativity).
Notation "m ;; k" := (bind m (fun _ => k))
  (at level 100, right associativity).

(** [print(s)] *)
Definition print (s : pystr) : prog unit :=
  fun w => (World (files w) (console w ++ [s]), inr tt).

(** [os.path.exists(path)] *)
Definition path_exists (path : string) : prog bool :=
  fun w => (w, inr (bool_decide (is_Some (files w !! path)))).

(** [open(path, 'r', encoding='utf-8')] and [f.read()] *)
Definition read_text (path : string) : prog pystr :=
  fun w =>
    match files w !! path with
    | None => (w, inl FileNotFoundError)
    | Some bytes =>
        match utf8_decode bytes with
        | None => (w, inl UnicodeDecodeError)
        | Some text => (w, inr (universal_newlines text))
        end
    end.

(** [open(path, 'w', encoding='utf-8')]: the file is created or emptied. *)
Definition open_w (path : string) : prog unit :=
  fun w => (World (<[path := []]> (files w)) (console w), inr tt).

(** [f.write(chunk)]: the chunk is encoded first; when that fails nothing
    of it is written. *)
Definition write (path : string) (chunk : pystr) : prog unit :=
  fun w =>
    match utf8_encode chunk with
    | None => (w, inl UnicodeEncodeError)
    | Some bytes =>
        (World (<[path := default [] (files w !! path) ++ bytes]> (files w))
               (console w),
         inr tt)
    end.

Fixpoint write_all (path : string) (chunks : list pystr) : prog unit :=
  match chunks with
  | [] => ret tt
  | chunk :: chunks' => write path chunk ;; write_all path chunks'
  end.

Section Values.
Context `{RT : PyRuntime}.

(** ** Python values that [json.load] builds

    A [dict] keeps its insertion order, which [json.dump] follows: it is
    an association list whose keys are distinct. *)

Inductive pyval : Type :=
| VNone
| VBool (b : bool)
| VInt (n : Z)
| VFloat (f : pyfloat)
| VStr (s : pystr)
| VList (items : list pyval)
| VDict (items : list (pystr * pyval)).

(** [d.get(k)] on the association list. *)
Fixpoint dict_get (k : pystr) (d : list (pystr * pyval)) : option pyval :=
  match d with
  | [] => None
  | (k', v) :: d' => if decide (k' = k) then Some v else dict_get k d'
  end.

(** [d[k] = v]: a present key keeps its place, a new key goes last. *)
Fixpoint dict_set (k : pystr) (v : pyval) (d : list (pystr * pyval))
  : list (pystr * pyval) :=
  match d with
  | [] => [(k, v)]
  | (k', v') :: d' =>
      if decide (k' = k) then (k', v) :: d' else (k', v') :: dict_set k v d'
  end.

Definition is_str (v : pyval) (s : pystr) : bool :=
  match v with
  | VStr s' => bool_decide (s' = s)
  | _ => false
  end.

(** [sub in container], for [sub] a [str]. *)
Definition py_contains (sub : pystr) (container : pyval) : result bool :=
  match container with
  | VDict d => inr (bool_decide (is_Some (dict_get sub d)))
  | VList l => inr (existsb (fun x => is_str x sub) l)
  | VStr s => inr (str_contains s sub)
  | VNone | VBool _ | VInt _ | VFloat _ => inl TypeError
  end.

(** The sequence a [for] loop walks over. *)
Definition py_iter (v : pyval) : result (list pyval) :=
  match v with
  | VList l => inr l
  | VDict d => inr ((fun kv => VStr kv.1) <$> d)
  | VStr s => inr ((fun c => VStr [c]) <$> s)
  | VNone | VBool _ | VInt _ | VFloat _ => inl TypeError
  end.

(** [len(v)] *)
Definition py_len (v : pyval) : result Z :=
  match v with
  | VList l => inr (Z.of_nat (length l))
  | VDict d => inr (Z.of_nat (length d))
  | VStr s => inr (Z.of_nat (length s))
  | VNone | VBool _ | VInt _ | VFloat _ => inl TypeError
  end.

(** [record.get(k, default)]: only a [dict] has the method. *)
Definition py_get (record : pyval) (k : pystr) (default : pyval) : result pyval :=
  match record with
  | VDict d =>
      match dict_get k d with
      | Some v => inr v
      | None => inr default
      end
  | _ => inl AttributeError
  end.

(** [v[:n]]: strings and lists are sliced; CPython 3.11 raises
    [TypeError] for every other value [json.load] builds. *)
Definition py_slice_to (n : nat) (v : pyval) : result pyval :=
  match v with
  | VStr s => inr (VStr (take n s))
  | VList l => inr (VList (take n l))
  | VNone | VBool _ | VInt _ | VFloat _ | VDict _ => inl TypeError
  end.

(** [int.__repr__]: decimal digits, most significant first. *)
Fixpoint digits_from (fuel : nat) (n : Z) (acc : pystr) : pystr :=
  match fuel with
  | O => acc
  | S fuel' =>
      if n <? 10 then (48 + n) :: acc
      else digits_from fuel' (n / 10) ((48 + n mod 10) :: acc)
  end.

Definition nat_digits (n : Z) : pystr :=
  digits_from (S (Z.to_nat (Z.log2 n))) n [].

Definition int_repr (n : Z) : pystr :=
  if n <? 0 then 45 :: nat_digits (- n) else nat_digits n.

(** [sep.join(parts)] *)
Fixpoint join (sep : pystr) (parts : list pystr) : pystr :=
  match parts with
  | [] => []
  | [p] => p
  | p :: parts' => p ++ sep ++ join sep parts'
  end.

(** [repr(v)] and [str(v)], which an f-string field applies. *)
Fixpoint py_repr (v : pyval) : pystr :=
  match v with
  | VNone => lit "None"
  | VBool true => lit "True"
  | VBool false => lit "False"
  | VInt n => int_repr n
  | VFloat f => float_repr f
  | VStr s => str_repr s
  | VList l => lit "[" ++ join (lit ", ") (map py_repr l) ++ lit "]"
  | VDict d =>
      lit "{"
      ++ join (lit ", ")
           (map (fun kv => str_repr (fst kv) ++ lit ": " ++ py_repr (snd kv)) d)
      ++ lit "}"
  end.

Definition py_str (v : pyval) : pystr :=
  match v with
  | VStr s => s
  | _ => py_repr v
  end.

(** ** [json.dump(obj, f, ensure_ascii=False, indent=4)]

    [encoder.py]: [py_encode_basestring], [floatstr] and the three
    generators of [_make_iterencode], with [_indent = ' ' * 4],
    [_item_separator = ','] and [_key_separator = ': ']. A generator is
    the list of the chunks it yields. *)

Definition hexdigit (n : Z) : Z := if n <? 10 then 48 + n else 87 + n.

(** [ESCAPE_DCT], applied to every match of [ESCAPE]. *)
Definition escape_char (c : Z) : pystr :=
  if c =? 92 then [92; 92]
  else if c =? 34 then [92; 34]
  else if c =? 8 then [92; 98]
  else if c =? 12 then [92; 102]
  else if c =? 10 then [92; 110]
  else if c =? 13 then [92; 114]
  else if c =? 9 then [92; 116]
  else if (0 <=? c) && (c <? 32) then
    [92; 117; 48; 48; hexdigit (c / 16); hexdigit (c mod 16)]
  else [c].

Definition encode_basestring (s : pystr) : pystr :=
  34 :: flat_map escape_char s ++ [34].

Definition NaN : pyfloat := float_of_str (lit "nan").
Definition PosInf : pyfloat := float_of_str (lit "inf").
Definition NegInf : pyfloat := float_of_str (lit "-inf").

Definition floatstr (o : pyfloat) : pystr :=
  if negb (float_eq o o) then lit "NaN"
  else if float_eq o PosInf then lit "Infinity"
  else if float_eq o NegInf then lit "-Infinity"
  else float_repr o.

Definition newline_indent (level : nat) : pystr :=
  10 :: repeat 32 (4 * level)%nat.

(** The value is neither a list nor a dict: one chunk. *)
Definition encode_atom (v : pyval) : pystr :=
  match v with
  | VStr s => encode_basestring s
  | VNone => lit "null"
  | VBool true => lit "true"
  | VBool false => lit "false"
  | VInt n => int_repr n
  | VFloat f => floatstr f
  | VList _ | VDict _ => []
  end.

Definition is_container (v : pyval) : bool :=
  match v with
  | VList _ | VDict _ => true
  | _ => false
  end.

(** The loop of [_iterencode_list]; [chunks] is the generator to run on
    an item that is a list or a dict, [buf] the text held back for the
    next item. *)
Definition list_items (chunks : pyval -> list pystr) (separator : pystr)
  : list pyval -> pystr -> list pystr :=
  fix items (lst : list pyval) (buf : pystr) {struct lst} : list pystr :=
    match lst with
    | [] => []
    | value :: lst' =>
        (if is_container value then buf :: chunks value
         else [buf ++ encode_atom value])
        ++ items lst' separator
    end.

(** The loop of [_iterencode_dict]. *)
Definition dict_items (chunks : pyval -> list pystr) (item_separator : pystr)
  : list (pystr * pyval) -> bool -> list pystr :=
  fix items (dct : list (pystr * pyval)) (first : bool) {struct dct}
    : list pystr :=
    match dct with
    | [] => []
    | (key, value) :: dct' =>
        (if first then [] else [item_separator])
        ++ [encode_basestring key; [58; 32]]
        ++ (if is_container value then chunks value else [encode_atom value])
        ++ items dct' false
    end.

Fixpoint iterencode (o : pyval) (level : nat) : list pystr :=
  match o with
  | VList [] => [lit "[]"]
  | VList lst =>
      list_items (fun value => iterencode value (S level))
        (44 :: newline_indent (S level)) lst (91 :: newline_indent (S level))
      ++ [newline_indent level; [93]]
  | VDict [] => [lit "{}"]
  | VDict dct =>
      [[123]; newline_indent (S level)]
      ++ dict_items (fun value => iterencode value (S level))
           (44 :: newline_indent (S level)) dct true
      ++ [newline_indent level; [125]]
  | _ => [encode_atom o]
  end.

(** The text [json.dump] hands to the file, chunk after chunk. *)
Definition dumps (o : pyval) : pystr := concat (iterencode o 0).

(** ** [json.load(f)]

    [decoder.py] and [scanner.py]. A position in the document is the
    text that remains; [None] is [JSONDecodeError]. *)

Definition is_ws (c : Z) : bool :=
  (c =? 32) || (c =? 9) || (c =? 10) || (c =? 13).

(** [WHITESPACE.match(s, end).end()] *)
Fixpoint skip_ws (s : pystr) : pystr :=
  match s with
  | [] => []
  | c :: s' => if is_ws c then skip_ws s' else s
  end.

Definition hex_val (c : Z) : option Z :=
  if (48 <=? c) && (c <=? 57) then Some (c - 48)
  else if (97 <=? c) && (c <=? 102) then Some (c - 87)
  else if (65 <=? c) && (c <=? 70) then Some (c - 55)
  else None.

(** [_decode_uXXXX]: the four hexadecimal digits after [\u]. *)
Definition decode_uXXXX (s : pystr) : option (Z * pystr) :=
  match s with
  | a :: b :: c :: d :: s' =>
      match hex_val a, hex_val b, hex_val c, hex_val d with
      | Some a, Some b, Some c, Some d =>
          Some (((a * 16 + b) * 16 + c) * 16 + d, s')
      | _, _, _, _ => None
      end
  | _ => None
  end.

(** [BACKSLASH] *)
Definition backslash (esc : Z) : option Z :=
  if esc =? 34 then Some 34
  else if esc =? 92 then Some 92
  else if esc =? 47 then Some 47
  else if esc =? 98 then Some 8
  else if esc =? 102 then Some 12
  else if esc =? 110 then Some 10
  else if esc =? 114 then Some 13
  else if esc =? 116 then Some 9
  else None.

(** [scanstring(s, end, strict=True)], from after the opening quote. Each
    turn of the loop consumes a character, so the length of the text is
    fuel enough. *)
Fixpoint scanstring_loop (fuel : nat) (s : pystr) : option (pystr * pystr) :=
  match fuel with
  | O => None
  | S fuel' =>
      match s with
      | [] => None
      | c :: s1 =>
          if c =? 34 then Some ([], s1)
          else if c =? 92 then
            match s1 with
            | [] => None
            | esc :: s2 =>
                if esc =? 117 then
                  match decode_uXXXX s2 with
                  | None => None
                  | Some (uni, s3) =>
                      let pair :=
                        if (0xd800 <=? uni) && (uni <=? 0xdbff) then
                          match s3 with
                          | b :: u :: s4 =>
                              if (b =? 92) && (u =? 117) then
                                match decode_uXXXX s4 with
                                | None => None
                                | Some (uni2, s5) =>
                                    if (0xdc00 <=? uni2) && (uni2 <=? 0xdfff)
                                    then Some (0x10000 + (uni - 0xd800) * 1024
                                               + (uni2 - 0xdc00), s5)
                                    else Some (uni, s3)
                                end
                              else Some (uni, s3)
                          | _ => Some (uni, s3)
                          end
                        else Some (uni, s3) in
                      match pair with
                      | None => None
                      | Some (char, s') =>
                          match scanstring_loop fuel' s' with
                          | None => None
                          | Some (str, r) => Some (char :: str, r)
                          end
                      end
                  end
                else
                  match backslash esc with
                  | None => None
                  | Some char =>
                      match scanstring_loop fuel' s2 with
                      | None => None
                      | Some (str, r) => Some (char :: str, r)
                      end
                  end
            end
          else if (0 <=? c) && (c <? 32) then None
          else
            match scanstring_loop fuel' s1 with
            | None => None
            | Some (str, r) => Some (c :: str, r)
            end
      end
  end.

Definition scanstring (s : pystr) : option (pystr * pystr) :=
  scanstring_loop (length s) s.

(** [NUMBER_RE]: an optional minus sign and either a zero or a digit from
    1 to 9 followed by digits; then, optionally, a point and one digit or
    more; then, optionally, [e] or [E], an optional sign and one digit or
    more. The accelerator reads ASCII digits only. *)
Definition is_digit (c : Z) : bool := (48 <=? c) && (c <=? 57).

Fixpoint span_digits (s : pystr) : pystr * pystr :=
  match s with
  | [] => ([], [])
  | c :: s' =>
      if is_digit c then
        let '(d, r) := span_digits s' in (c :: d, r)
      else ([], s)
  end.

Definition match_integer (s : pystr) : option (pystr * pystr) :=
  let '(sign, s1) :=
    match s with
    | c :: s' => if c =? 45 then ([45], s') else ([], s)
    | [] => ([], s)
    end in
  match s1 with
  | [] => None
  | c :: s2 =>
      if c =? 48 then Some (sign ++ [48], s2)
      else if is_digit c then
        let '(d, r) := span_digits s2 in Some (sign ++ c :: d, r)
      else None
  end.

Definition match_frac (s : pystr) : pystr * pystr :=
  match s with
  | p :: s1 =>
      if p =? 46 then
        match span_digits s1 with
        | ([], _) => ([], s)
        | (d, r) => (46 :: d, r)
        end
      else ([], s)
  | [] => ([], s)
  end.

Definition match_exp (s : pystr) : pystr * pystr :=
  match s with
  | e :: s1 =>
      if (e =? 101) || (e =? 69) then
        let '(sign, s2) :=
          match s1 with
          | c :: s' => if (c =? 43) || (c =? 45) then ([c], s') else ([], s1)
          | [] => ([], s1)
          end in
        match span_digits s2 with
        | ([], _) => ([], s)
        | (d, r) => (e :: sign ++ d, r)
        end
      else ([], s)
  | [] => ([], s)
  end.

(** The three groups of the match and the text after it. *)
Definition match_number (s : pystr) : option (pystr * pystr * pystr * pystr) :=
  match match_integer s with
  | None => None
  | Some (integer, s1) =>
      let '(frac, s2) := match_frac s1 in
      let '(exp, s3) := match_exp s2 in
      Some (integer, frac, exp, s3)
  end.

(** [int(s)] for [s] matched by the first group. *)
Definition digits_value (d : pystr) : Z :=
  fold_left (fun acc c => 10 * acc + (c - 48)) d 0.

Definition int_of_str (s : pystr) : Z :=
  match s with
  | c :: d => if c =? 45 then - digits_value d else digits_value s
  | [] => 0
  end.

(** [JSONArray]: [s] starts after the bracket. *)
Fixpoint array_loop (scan_once : pystr -> option (pyval * pystr))
    (fuel : nat) (s : pystr) (values : list pyval)
  : option (pyval * pystr) :=
  match fuel with
  | O => None
  | S fuel' =>
      match scan_once s with
      | None => None
      | Some (value, r) =>
          let values := values ++ [value] in
          match skip_ws r with
          | nextchar :: r' =>
              if nextchar =? 93 then Some (VList values, r')
              else if nextchar =? 44
              then array_loop scan_once fuel' (skip_ws r') values
              else None
          | [] => None
          end
      end
  end.

Definition JSONArray (scan_once : pystr -> option (pyval * pystr))
    (fuel : nat) (s : pystr) : option (pyval * pystr) :=
  match skip_ws s with
  | nextchar :: r =>
      if nextchar =? 93 then Some (VList [], r)
      else array_loop scan_once fuel (skip_ws s) []
  | [] => None
  end.

(** [dict(pairs)]: a repeated key keeps its first place and takes its
    last value. *)
Definition dict_of_pairs (pairs : list (pystr * pyval)) : list (pystr * pyval) :=
  fold_left (fun d kv => dict_set (fst kv) (snd kv) d) pairs [].

(** [JSONObject]: the loop starts after the quote that opens a key. *)
Fixpoint object_loop (scan_once : pystr -> option (pyval * pystr))
    (fuel : nat) (s : pystr) (pairs : list (pystr * pyval))
  : option (pyval * pystr) :=
  match fuel with
  | O => None
  | S fuel' =>
      match scanstring s with
      | None => None
      | Some (key, r) =>
          match skip_ws r with
          | colon :: r1 =>
              if colon =? 58 then
                match scan_once (skip_ws r1) with
                | None => None
                | Some (value, r2) =>
                    let pairs := pairs ++ [(key, value)] in
                    match skip_ws r2 with
                    | nextchar :: r3 =>
                        if nextchar =? 125
                        then Some (VDict (dict_of_pairs pairs), r3)
                        else if nextchar =? 44 then
                          match skip_ws r3 with
                          | q :: r4 =>
                              if q =? 34
                              then object_loop scan_once fuel' r4 pairs
                              else None
                          | [] => None
                          end
                        else None
                    | [] => None
                    end
                end
              else None
          | [] => None
          end
      end
  end.

Definition JSONObject (scan_once : pystr -> option (pyval * pystr))
    (fuel : nat) (s : pystr) : option (pyval * pystr) :=
  match skip_ws s with
  | nextchar :: r =>
      if nextchar =? 125 then Some (VDict [], r)
      else if nextchar =? 34 then object_loop scan_once fuel r []
      else None
  | [] => None
  end.

(** [_scan_once]; a container costs one unit of fuel for each level of
    nesting and each of its items. *)
Fixpoint scan_once (fuel : nat) (s : pystr) : option (pyval * pystr) :=
  match fuel with
  | O => None
  | S fuel' =>
      match s with
      | [] => None
      | nextchar :: s' =>
          if nextchar =? 34 then
            match scanstring s' with
            | None => None
            | Some (str, r) => Some (VStr str, r)
            end
          else if nextchar =? 123 then JSONObject (scan_once fuel') fuel' s'
          else if nextchar =? 91 then JSONArray (scan_once fuel') fuel' s'
          else if startswith s (lit "null") then Some (VNone, drop 4 s)
          else if startswith s (lit "true") then Some (VBool true, drop 4 s)
          else if startswith s (lit "false") then Some (VBool false, drop 5 s)
          else
            match match_number s with
            | Some (integer, frac, exp, r) =>
                match frac, exp with
                | [], [] => Some (VInt (int_of_str integer), r)
                | _, _ => Some (VFloat (float_of_str (integer ++ frac ++ exp)), r)
                end
            | None =>
                if startswith s (lit "NaN") then Some (VFloat NaN, drop 3 s)
                else if startswith s (lit "Infinity")
                then Some (VFloat PosInf, drop 8 s)
                else if startswith s (lit "-Infinity")
                then Some (VFloat NegInf, drop 9 s)
                else None
            end
      end
  end.

(** [json.loads(s)]: a leading byte order mark is refused, then
    [JSONDecoder.decode]. *)
Definition loads (s : pystr) : result pyval :=
  if startswith s [0xFEFF] then inl JSONDecodeError
  else
    match scan_once (S (length s)) (skip_ws s) with
    | None => inl JSONDecodeError
    | Some (obj, r) =>
        match skip_ws r with
        | [] => inr obj
        | _ :: _ => inl JSONDecodeError
        end
    end.

(** ** partition: lines 15-22 *)

Fixpoint partition_loop (items valid_records error_records : list pyval)
  : result (list pyval * list pyval) :=
  match items with
  | [] => inr (valid_records, error_records)
  | record :: items' =>
      match py_contains (lit "error") record with
      | inl e => inl e
      | inr true => partition_loop items' valid_records (error_records ++ [record])
      | inr false => partition_loop items' (valid_records ++ [record]) error_records
      end
  end.

Definition partition (records : pyval) : result (list pyval * list pyval) :=
  rbind (py_iter records) (fun items => partition_loop items [] []).

(** A Record is a JSON object; a Dataset is a list of Records. *)
Definition is_record (v : pyval) : bool :=
  match v with
  | VDict _ => true
  | _ => false
  end.

Definition is_dataset (D : list pyval) : Prop := forallb is_record D = true.

(** The test of line 19 on a Record. *)
Definition has_error (v : pyval) : bool :=
  match v with
  | VDict d => bool_decide (is_Some (dict_get (lit "error") d))
  | _ => false
  end.

(** ** The script, statement by statement *)

Definition input_file : string := "amazon_results.json".
Definition output_file : string := "amazon_results_cleaned.json".
Definition backup_file : string := "amazon_results_new_backup.json".

(** load: lines 9-10, [with open(path, 'r', encoding='utf-8') as f:
    records = json.load(f)]. *)
Definition load (path : string) : prog pyval :=
  text <- read_text path ;;
  lift (loads text).

(** The three characters between the indent and the ASIN on line 35, as
    the source file has them: U+00E2, U+20AC, U+00A2. *)
Definition bullet : pystr := [0xE2; 0x20AC; 0xA2].

(** Lines 33-35 up to the call of [print]: the text of one line. *)
Definition error_line (record : pyval) : result pystr :=
  rbind (py_get record (lit "asin") (VStr (lit "Unknown"))) (fun asin =>
  rbind (py_get record (lit "error") (VStr (lit "Unknown error"))) (fun error =>
  rbind (py_slice_to 80 error) (fun head =>
  inr (lit "   " ++ bullet ++ lit " " ++ py_str asin ++ lit ": "
       ++ py_str head ++ lit "..."))))%nat.

Fixpoint report_loop (error_records : list pyval) : prog unit :=
  match error_records with
  | [] => ret tt
  | record :: error_records' =>
      line <- lift (error_line record) ;;
      print line ;;
      report_loop error_records'
  end.

(** report: lines 30-35. *)
Definition report (error_records : list pyval) : prog unit :=
  match error_records with
  | [] => ret tt
  | _ :: _ =>
      print (10 :: lit "ASINs with errors:") ;;
      report_loop error_records
  end.

(** [with open(path, 'w', encoding='utf-8') as f:
    json.dump(obj, f, ensure_ascii=False, indent=4)] *)
Definition dump_to (obj : pyval) (path : string) : prog unit :=
  open_w path ;;
  write_all path (iterencode obj 0).

(** writeCleaned: lines 39-40. *)
Definition writeCleaned (valid_records : list pyval) (path : string) : prog unit :=
  dump_to (VList valid_records) path.

(** maybeBackup: lines 46-50. *)
Definition maybeBackup (records : pyval) (path : string) : prog unit :=
  there <- path_exists path ;;
  if there then ret tt
  else
    dump_to records path ;;
    print (lit "Backup created: " ++ lit path).

Definition len_repr {A} (l : list A) : pystr := int_repr (Z.of_nat (length l)).

(** Lines 8-43: everything but the backup; yields [records]. *)
Definition clean : prog pyval :=
  print (lit " Loading " ++ lit input_file ++ lit "...") ;;
  records <- load input_file ;;
  n <- lift (py_len records) ;;
  print (lit "Total records before cleaning: " ++ int_repr n) ;;
  split <- lift (partition records) ;;
  let valid_records := fst split in
  let error_records := snd split in
  print (10 :: lit " Statistics:") ;;
  print (lit " Valid records: " ++ len_repr valid_records) ;;
  print (lit " Records with errors: " ++ len_repr error_records) ;;
  report error_records ;;
  print (10 :: lit "Saving cleaned data to " ++ lit output_file ++ lit "...") ;;
  writeCleaned valid_records output_file ;;
  print (lit "Cleaned file saved!") ;;
  print (lit "Total records in cleaned file: " ++ len_repr valid_records) ;;
  ret records.

(** The whole script: lines 8-43, then lines 45-50. *)
Definition clean_json : prog unit :=
  records <- clean ;;
  maybeBackup records backup_file.

(** ** The vocabulary of the statements *)

(** The text of the [error] entry of an errored record, when it is one. *)
Definition error_text (r : pyval) : option pystr :=
  match r with
  | VDict d =>
      match dict_get (lit "error") d with
      | Some (VStr e) => Some e
      | _ => None
      end
  | _ => None
  end.

(** The line of the listing for a record whose [error] is the text [e]. *)
Definition listing_line (r : pyval) (e : pystr) : pystr :=
  lit "   " ++ bullet ++ lit " "
  ++ match r with
     | VDict d =>
         match dict_get (lit "asin") d with
         | Some asin => py_str asin
         | None => lit "Unknown"
         end
     | _ => []
     end
  ++ lit ": " ++ take 80 e ++ lit "...".



(** A code point that the codec encodes: a Unicode scalar value. *)
Definition scalar_value (c : Z) : bool :=
  ((0 <=? c) && (c <? 0xD800)) || ((0xE000 <=? c) && (c <=? 0x10FFFF)).

(** The text after a value in what [json.dump] writes: nothing, a comma
    or a newline. *)
Definition delimited (rest : pystr) : Prop :=
  match rest with
  | [] => True
  | c :: _ => c = 44 \/ c = 10
  end.

(** The characters of a number literal. *)
Definition number_char (c : Z) : bool :=
  is_digit c || (c =? 45) || (c =? 43) || (c =? 46) || (c =? 101) || (c =? 69).

(** ** The format of the specification

    A JSON text pretty-printed with an indent of four spaces: the items
    of a list or of an object are written one per line, four spaces
    deeper than the line that opens it, with a comma after each but the
    last; the closing bracket is on a line of its own at the depth of the
    opening one; an empty list or object is written on one line; a key
    and its value are separated by a colon and a space; strings keep the
    characters that are not ASCII as they are. *)
Fixpoint pretty_json (level : nat) (v : pyval) : pystr :=
  match v with
  | VList [] => lit "[]"
  | VList l =>
      91 :: newline_indent (S level)
      ++ join (44 :: newline_indent (S level)) (map (pretty_json (S level)) l)
      ++ newline_indent level ++ [93]
  | VDict [] => lit "{}"
  | VDict d =>
      123 :: newline_indent (S level)
      ++ join (44 :: newline_indent (S level))
           (map (fun kv => encode_basestring (fst kv) ++ [58; 32]
                           ++ pretty_json (S level) (snd kv)) d)
      ++ newline_indent level ++ [125]
  | _ => encode_atom v
  end.

(** The text is a number literal with a fraction or an exponent. *)
Definition is_float_literal (s : pystr) : bool :=
  match match_number s with
  | Some (_, frac, exp, []) =>
      negb (bool_decide (frac = []) && bool_decide (exp = []))
  | _ => false
  end.

(** What is assumed of the floats of the interpreter: one NaN, one
    infinity of each sign, and for every other float a [repr] that is a
    number literal with a fraction or an exponent and that [float] reads
    back to the same float. *)
Record float_laws : Prop := {
  nan_unique f : float_eq f f = false -> f = NaN;
  posinf_unique f : float_eq f PosInf = true -> f = PosInf;
  neginf_unique f : float_eq f NegInf = true -> f = NegInf;
  repr_literal f :
    float_eq f f = true -> float_eq f PosInf = false ->
    float_eq f NegInf = false -> is_float_literal (float_repr f) = true;
  repr_exact f :
    float_eq f f = true -> float_eq f PosInf = false ->
    float_eq f NegInf = false -> float_of_str (float_repr f) = f;
}.

(** The keys of every dict are distinct, as they are in a Python dict. *)
Fixpoint distinct_keys (v : pyval) : bool :=
  match v with
  | VList l => forallb distinct_keys l
  | VDict d =>
      bool_decide (NoDup (map fst d))
      && forallb (fun kv => distinct_keys (snd kv)) d
  | _ => true
  end.

(** The number of values in a value, itself included. *)
Fixpoint size (v : pyval) : nat :=
  match v with
  | VList l => S (sum_list (map size l))
  | VDict d => S (sum_list (map (fun kv => size (snd kv)) d))
  | _ => 1
  end.

(** The characters a JSON value can start with. *)
Definition value_start (c : Z) : bool :=
  (c =? 34) || (c =? 123) || (c =? 91) || (c =? 110) || (c =? 116)
  || (c =? 102) || (c =? 78) || (c =? 73) || (c =? 45) || is_digit c.

(** An item of an object, from after the quote that opens its key. *)
Definition item_tail (level : nat) (kv : pystr * pyval) : pystr :=
  flat_map escape_char (fst kv)
  ++ 34 :: 58 :: 32 :: pretty_json level (snd kv).

(** Two scanners that agree on the texts no longer than [n], and consume
    what they scan. *)
Definition agree_upto (n : nat) (scan1 scan2 : pystr -> option (pyval * pystr))
  : Prop :=
  forall s, (length s <= n)%nat ->
    scan1 s = scan2 s
    /\ forall v r, scan1 s = Some (v, r) -> (length r < length s)%nat.

(** Every character of every string of a value, keys included. *)
Fixpoint strings_all (P : Z -> bool) (v : pyval) : bool :=
  match v with
  | VStr s => forallb P s
  | VList l => forallb (strings_all P) l
  | VDict d =>
      forallb (fun kv => forallb P (fst kv) && strings_all P (snd kv)) d
  | _ => true
  end.

(** The characters [ESCAPE] matches. *)
Definition escaped (c : Z) : bool :=
  (c =? 92) || (c =? 34) || ((0 <=? c) && (c <? 32)).

Definition printable (c : Z) : bool := (32 <=? c) && (c <=? 126).

(** The statement does not change the file at [p]. *)
Definition keeps (p : string) {A} (m : prog A) : Prop :=
  forall w, files (fst (m w)) !! p = files w !! p.

(** Whether the statement raises, and what it yields, depends on the
    input file only. *)
Definition input_only {A} (m : prog A) : Prop :=
  forall w w', files w !! input_file = files w' !! input_file ->
    snd (m w) = snd (m w').

(** ** What a run does, as a function of what was loaded

    The statements of the script print and write in a fixed order and
    stop at the first exception; what a run prints, what it leaves in a
    file and how it ends are functions of the value loaded. *)

(** The values the operator [in] is defined on. *)
Definition supports_in (v : pyval) : bool :=
  match v with
  | VStr _ | VList _ | VDict _ => true
  | _ => false
  end.

(** The test of line 19 on any value; [false] where the test raises. *)
Definition mentions_error (v : pyval) : bool :=
  match py_contains (lit "error") v with
  | inr b => b
  | inl _ => false
  end.

(** The line of the listing for a record that lines 33-35 can print. *)
Definition line_text (r : pyval) : pystr :=
  match error_line r with
  | inr line => line
  | inl _ => []
  end.

(** The lines the loop of lines 32-35 prints, and how it ends. *)
Fixpoint listing (error_records : list pyval) : list pystr * result unit :=
  match error_records with
  | [] => ([], inr tt)
  | record :: error_records' =>
      match error_line record with
      | inl e => ([], inl e)
      | inr line =>
          (line :: fst (listing error_records'), snd (listing error_records'))
      end
  end.

(** The same for lines 30-35. *)
Definition report_output (error_records : list pyval)
  : list pystr * result unit :=
  match error_records with
  | [] => ([], inr tt)
  | _ :: _ =>
      ((10 :: lit "ASINs with errors:") :: fst (listing error_records),
       snd (listing error_records))
  end.

(** The bytes of the chunks that come before the first chunk the codec
    refuses: what [json.dump] has written when it stops. *)
Fixpoint encoded_prefix (chunks : list pystr) : list Z :=
  match chunks with
  | [] => []
  | chunk :: chunks' =>
      match utf8_encode chunk with
      | None => []
      | Some bytes => bytes ++ encoded_prefix chunks'
      end
  end.

(** How [json.dump] to a UTF-8 file ends. *)
Definition dump_outcome (obj : pyval) : result unit :=
  match utf8_encode (dumps obj) with
  | Some _ => inr tt
  | None => inl UnicodeEncodeError
  end.

(** Lines 8-43 on what [json.load] gave: the lines printed, the bytes
    left in the cleaned file when it was opened, and the end of the
    run. *)
Definition clean_effect (loaded : result pyval)
  : list pystr * option (list Z) * result pyval :=
  let loading := [lit " Loading " ++ lit input_file ++ lit "..."] in
  match loaded with
  | inl e => (loading, None, inl e)
  | inr records =>
      match py_len records with
      | inl e => (loading, None, inl e)
      | inr n =>
          let total :=
            loading ++ [lit "Total records before cleaning: " ++ int_repr n] in
          match partition records with
          | inl e => (total, None, inl e)
          | inr (valid_records, error_records) =>
              let statistics :=
                total
                ++ [10 :: lit " Statistics:";
                    lit " Valid records: " ++ len_repr valid_records;
                    lit " Records with errors: " ++ len_repr error_records]
                ++ fst (report_output error_records) in
              match snd (report_output error_records) with
              | inl e => (statistics, None, inl e)
              | inr _ =>
                  let saving :=
                    statistics
                    ++ [10 :: lit "Saving cleaned data to " ++ lit output_file
                           ++ lit "..."] in
                  let bytes :=
                    encoded_prefix (iterencode (VList valid_records) 0) in
                  match dump_outcome (VList valid_records) with
                  | inl e => (saving, Some bytes, inl e)
                  | inr _ =>
                      (saving
                       ++ [lit "Cleaned file saved!";
                           lit "Total records in cleaned file: "
                           ++ len_repr valid_records],
                       Some bytes, inr records)
                  end
              end
          end
      end
  end.

(** The file system after a file was written, or not. *)
Definition written (path : string) (bytes : option (list Z))
    (fs : gmap string (list Z)) : gmap string (list Z) :=
  match bytes with
  | None => fs
  | Some b => <[path := b]> fs
  end.

End Values.

(** ** A runtime to run the script in

    The smallest runtime that satisfies [float_laws]: it has one float,
    the positive infinity. It runs the script on every document, and as
    CPython does on the documents without a floating-point number. *)
Definition one_float : PyRuntime := {|
  pyfloat := unit;
  float_of_str := fun _ => tt;
  float_repr := fun _ => lit "inf";
  float_eq := fun _ _ => true;
  str_repr := fun s => 39 :: s ++ [39];
|}.

(** ** The data of the examples *)

Section Scenario.
Existing Instance one_float.

(** A JSON text written with an apostrophe for each double quote. *)
Definition jlit (s : string) : pystr :=
  (fun c => if c =? 39 then 34 else c) <$> lit s.

(** A world with nothing but the input file, holding an ASCII text. *)
Definition input_world (text : pystr) : world :=
  World {[ input_file := text ]} [].

(** The records of the scenario of the specification. *)
Definition record_A1 : pyval :=
  VDict [(lit "asin", VStr (lit "A1")); (lit "title", VStr (lit "x"))].

Definition record_A2 : pyval :=
  VDict [(lit "asin", VStr (lit "A2"));
         (lit "error",
          VStr (lit "timeout after 30s while fetching page details for item"))].

Definition scenario : list pyval := [record_A1; record_A2].

(** The text of the scenario, as an input file holds it. *)
Definition scenario_text : pystr :=
  jlit "[{'asin':'A1','title':'x'},{'asin':'A2','error':'timeout after 30s while fetching page details for item'}]".

(** A title that is not ASCII: [e] with an acute accent is written as the
    two bytes of its UTF-8 encoding. *)
Definition record_cafe : pyval :=
  VDict [(lit "title", VStr (lit "caf" ++ [233]))].

(** The record a JSON text holds when a title ends in the first half of
    a surrogate pair. *)
Definition record_cut : pyval :=
  VDict [(lit "asin", VStr (lit "A1")); (lit "title", VStr [0xD83D])].

End Scenario.

Section Correctness.
Context `{RT : PyRuntime}.

(** ** The partition and the report *)

Lemma py_contains_record r :
  is_record r = true -> py_contains (lit "error") r = inr (has_error r).
Proof. destruct r; simpl; congruence. Qed.

Lemma partition_loop_filter D : is_dataset D -> forall valid errored,
  partition_loop D valid errored
  = inr (valid ++ filter (fun r => has_error r = false) D,
         errored ++ filter (fun r => has_error r = true) D).
Proof.
  unfold is_dataset. induction D as [|r D IH]; intros HD valid errored; simpl.
  - by rewrite !app_nil_r.
  - simpl in HD. apply andb_prop in HD as [Hr HD].
    rewrite (py_contains_record r Hr).
    rewrite !filter_cons. destruct (has_error r) eqn:E;
      rewrite IH by done; repeat case_decide; try congruence;
      by rewrite <- app_assoc.
Qed.

Lemma partition_dataset D : is_dataset D ->
  partition (VList D)
  = inr (filter (fun r => has_error r = false) D,
         filter (fun r => has_error r = true) D).
Proof.
  intros HD. unfold partition, py_iter, rbind.
  by rewrite partition_loop_filter.
Qed.

Lemma filter_has_error_complement (D : list pyval) :
  filter (fun r => has_error r = false) D
  = filter (fun r => ~ has_error r = true) D.
Proof.
  apply list_filter_iff. intros r. destruct (has_error r); naive_solver.
Qed.

Lemma partition_loop_errored items : forall valid errored valid' errored',
  partition_loop items valid errored = inr (valid', errored') ->
  forall r, r ∈ errored' ->
    r ∈ errored \/ py_contains (lit "error") r = inr true.
Proof.
  induction items as [|x items IH]; intros valid errored valid' errored' H r Hr.
  - simpl in H. left. congruence.
  - simpl in H. destruct (py_contains (lit "error") x) as [e|[|]] eqn:E;
      [discriminate| |].
    + destruct (IH _ _ _ _ H r Hr) as [Hin|Hc]; [|by right].
      apply elem_of_app in Hin as [Hin|Hin]; [by left|].
      apply list_elem_of_singleton in Hin as ->. by right.
    + destruct (IH _ _ _ _ H r Hr) as [Hin|Hc]; [by left|by right].
Qed.

Lemma error_line_text r e :
  error_text r = Some e -> error_line r = inr (listing_line r e).
Proof.
  destruct r as [| | | | |?|d]; try discriminate. unfold error_text.
  intros H. unfold error_line, py_get, listing_line.
  destruct (dict_get (lit "error") d) as [[]|]; try discriminate.
  injection H as ->.
  by destruct (dict_get (lit "asin") d).
Qed.




(** ** The codec: what is encoded decodes to itself *)

Ltac zlia := Z.div_mod_to_equations; lia.

Ltac zhyps :=
  repeat match goal with
  | H : _ && _ = true |- _ => apply andb_prop in H as [? ?]
  | H : _ || _ = false |- _ => apply orb_false_elim in H as [? ?]
  | H : _ && _ = false |- _ => apply andb_false_iff in H
  | H : _ || _ = true |- _ => apply orb_prop in H
  | H : (_ <=? _) = true |- _ => apply Z.leb_le in H
  | H : (_ <=? _) = false |- _ => apply Z.leb_gt in H
  | H : (_ <? _) = true |- _ => apply Z.ltb_lt in H
  | H : (_ <? _) = false |- _ => apply Z.ltb_ge in H
  | H : (_ =? _) = true |- _ => apply Z.eqb_eq in H
  | H : (_ =? _) = false |- _ => apply Z.eqb_neq in H
  | H : _ \/ _ |- _ => destruct H
  end.

Ltac zbool_by tac :=
  repeat match goal with
  | |- context [?a <=? ?b] =>
      first [ rewrite (proj2 (Z.leb_le a b)) by tac
            | rewrite (proj2 (Z.leb_gt a b)) by tac ]
  | |- context [?a <? ?b] =>
      first [ rewrite (proj2 (Z.ltb_lt a b)) by tac
            | rewrite (proj2 (Z.ltb_ge a b)) by tac ]
  | |- context [?a =? ?b] =>
      first [ rewrite (proj2 (Z.eqb_eq a b)) by tac
            | rewrite (proj2 (Z.eqb_neq a b)) by tac ]
  end.

Ltac zbool := zbool_by lia.

Lemma utf8_decode_cons b0 r0 :
  utf8_decode (b0 :: r0) =
      if (0 <=? b0) && (b0 <? 0x80) then cons b0 <$> utf8_decode r0
      else if (0xC2 <=? b0) && (b0 <=? 0xDF) then
        match r0 with
        | b1 :: r1 =>
            if is_cont b1
            then cons ((b0 - 0xC0) * 64 + (b1 - 0x80)) <$> utf8_decode r1
            else None
        | _ => None
        end
      else if (0xE0 <=? b0) && (b0 <=? 0xEF) then
        match r0 with
        | b1 :: b2 :: r2 =>
            if is_cont b1 && is_cont b2
               && (negb (b0 =? 0xE0) || (0xA0 <=? b1))
               && (negb (b0 =? 0xED) || (b1 <=? 0x9F))
            then cons ((b0 - 0xE0) * 4096 + (b1 - 0x80) * 64 + (b2 - 0x80))
                   <$> utf8_decode r2
            else None
        | _ => None
        end
      else if (0xF0 <=? b0) && (b0 <=? 0xF4) then
        match r0 with
        | b1 :: b2 :: b3 :: r3 =>
            if is_cont b1 && is_cont b2 && is_cont b3
               && (negb (b0 =? 0xF0) || (0x90 <=? b1))
               && (negb (b0 =? 0xF4) || (b1 <=? 0x8F))
            then cons ((b0 - 0xF0) * 262144 + (b1 - 0x80) * 4096
                       + (b2 - 0x80) * 64 + (b3 - 0x80))
                   <$> utf8_decode r3
            else None
        | _ => None
        end
      else None.
Proof. reflexivity. Qed.

Lemma utf8_decode_encode_char c bs rest :
  utf8_encode_char c = Some bs ->
  utf8_decode (bs ++ rest) = cons c <$> utf8_decode rest.
Proof.
  unfold utf8_encode_char.
  repeat case_match; intros [= <-]; zhyps; try lia.
  all: cbn [app]; rewrite utf8_decode_cons; unfold is_cont.
  all: zbool_by zlia; simpl; try done; try (do 2 f_equal; zlia).
  all: repeat match goal with
       | |- context [negb (?a =? ?b)] =>
           destruct (Z.eqb_spec a b); cbn [negb orb andb]
       end; zbool_by zlia; simpl; do 2 f_equal; zlia.
Qed.

Lemma utf8_decode_encode s : forall bs,
  utf8_encode s = Some bs -> utf8_decode bs = Some s.
Proof.
  induction s as [|c s IH]; intros bs; simpl.
  - by intros [= <-].
  - destruct (utf8_encode_char c) as [b|] eqn:Ec; [|done].
    destruct (utf8_encode s) as [bs'|]; [|done].
    intros [= <-]. rewrite (utf8_decode_encode_char c b bs' Ec).
    by rewrite (IH bs').
Qed.

Lemma utf8_encode_app s1 s2 :
  utf8_encode (s1 ++ s2)
  = match utf8_encode s1, utf8_encode s2 with
    | Some b1, Some b2 => Some (b1 ++ b2)
    | _, _ => None
    end.
Proof.
  induction s1 as [|c s1 IH]; simpl.
  - by destruct (utf8_encode s2).
  - rewrite IH. destruct (utf8_encode_char c), (utf8_encode s1),
      (utf8_encode s2); try done. by rewrite app_assoc.
Qed.

Lemma utf8_encode_char_scalar c :
  is_Some (utf8_encode_char c) <-> scalar_value c = true.
Proof.
  destruct (scalar_value c) eqn:E; unfold scalar_value in E; zhyps;
    unfold utf8_encode_char.
  1-2: split; [done|intros _];
    destruct (Z.lt_ge_cases c 128), (Z.lt_ge_cases c 2048),
      (Z.lt_ge_cases c 65536); zbool; simpl; eauto.
  all: try lia.
  all: split; [|done]; zbool; simpl; by intros [? ?].
Qed.

Lemma utf8_encode_scalar s :
  forallb scalar_value s = true -> is_Some (utf8_encode s).
Proof.
  induction s as [|c s IH]; simpl; [eauto|].
  intros [Hc Hs]%andb_prop. apply utf8_encode_char_scalar in Hc as [b ->].
  destruct (IH Hs) as [bs ->]. eauto.
Qed.

Lemma universal_newlines_no_cr s :
  13 ∉ s -> universal_newlines s = s.
Proof.
  induction s as [|c s IH]; [done|]. intros H.
  apply not_elem_of_cons in H as [Hc H]. simpl.
  rewrite (proj2 (Z.eqb_neq c 13)) by done. by rewrite IH.
Qed.

(** ** Numbers: what [int.__repr__] writes, the scanner reads back *)

Lemma digits_value_snoc d c :
  digits_value (d ++ [c]) = 10 * digits_value d + (c - 48).
Proof. unfold digits_value. by rewrite fold_left_app. Qed.

Lemma is_digit_spec c : is_digit c = true <-> 48 <= c <= 57.
Proof. unfold is_digit. rewrite andb_true_iff, !Z.leb_le. done. Qed.

Lemma digits_from_S fuel n acc :
  digits_from (S fuel) n acc
  = if n <? 10 then (48 + n) :: acc
    else digits_from fuel (n / 10) ((48 + n mod 10) :: acc).
Proof. reflexivity. Qed.

Lemma digits_from_spec fuel : forall n acc,
  0 <= n < 2 ^ Z.of_nat (S fuel) ->
  exists c d,
    digits_from (S fuel) n acc = (c :: d) ++ acc
    /\ forallb is_digit (c :: d) = true
    /\ digits_value (c :: d) = n
    /\ (c = 48 -> d = []).
Proof.
  induction fuel as [|fuel IH]; intros n acc Hn.
  - change (2 ^ Z.of_nat 1) with 2 in Hn. exists (48 + n), [].
    rewrite digits_from_S, (proj2 (Z.ltb_lt n 10)) by lia.
    repeat split.
    + cbn. rewrite andb_true_r. apply is_digit_spec. lia.
    + cbn. lia.
  - rewrite digits_from_S. destruct (Z.ltb_spec n 10) as [Hlt|Hge].
    + exists (48 + n), []. repeat split.
      * cbn. rewrite andb_true_r. apply is_digit_spec. lia.
      * cbn. lia.
    + assert (Hq : 0 <= n / 10 < 2 ^ Z.of_nat (S fuel)).
      { rewrite Nat2Z.inj_succ, Z.pow_succ_r in Hn by lia. zlia. }
      destruct (IH (n / 10) ((48 + n mod 10) :: acc) Hq)
        as (c & d & Hd & Hdig & Hval & Hc).
      exists c, (d ++ [48 + n mod 10]). repeat split.
      * rewrite Hd. cbn [app]. by rewrite <- app_assoc.
      * change (c :: d ++ [48 + n mod 10]) with ((c :: d) ++ [48 + n mod 10]).
        rewrite forallb_app, Hdig. cbn. rewrite andb_true_r.
        apply is_digit_spec. zlia.
      * change (c :: d ++ [48 + n mod 10]) with ((c :: d) ++ [48 + n mod 10]).
        rewrite digits_value_snoc, Hval. zlia.
      * intros ->. specialize (Hc eq_refl). subst d.
        cbn in Hval. zlia.
Qed.

Lemma nat_digits_spec n :
  0 <= n ->
  exists c d,
    nat_digits n = c :: d
    /\ forallb is_digit (c :: d) = true
    /\ digits_value (c :: d) = n
    /\ (c = 48 -> d = []).
Proof.
  intros Hn. unfold nat_digits.
  destruct (digits_from_spec (Z.to_nat (Z.log2 n)) n []) as (c & d & H & ?).
  - rewrite Nat2Z.inj_succ, Z2Nat.id by apply Z.log2_nonneg.
    destruct (Z.eq_dec n 0) as [->|Hne]; [done|].
    split; [done|]. apply Z.log2_spec. lia.
  - exists c, d. by rewrite H, app_nil_r.
Qed.

Lemma span_digits_delimited s rest :
  delimited rest ->
  span_digits (s ++ rest) = (fst (span_digits s), snd (span_digits s) ++ rest).
Proof.
  intros Hr. induction s as [|c s IH]; cbn [app span_digits].
  - destruct rest as [|c rest]; [done|]. cbn.
    destruct Hr as [-> | ->]; done.
  - destruct (is_digit c); [|done]. rewrite IH.
    by destruct (span_digits s).
Qed.

Lemma span_digits_all d :
  forallb is_digit d = true -> span_digits d = (d, []).
Proof.
  induction d as [|c d IH]; [done|]. cbn.
  intros [-> Hd]%andb_prop. by rewrite IH.
Qed.

Lemma match_integer_delimited s rest i r :
  match_integer s = Some (i, r) ->
  delimited rest ->
  match_integer (s ++ rest) = Some (i, r ++ rest).
Proof.
  intros H Hr. unfold match_integer in *.
  destruct s as [|c s]; [done|]. cbn [app].
  destruct (c =? 45).
  - destruct s as [|c' s]; [done|]. cbn [app].
    destruct (c' =? 48); [by injection H as <- <-|].
    destruct (is_digit c'); [|done].
    rewrite span_digits_delimited by done.
    destruct (span_digits s). by injection H as <- <-.
  - destruct (c =? 48); [by injection H as <- <-|].
    destruct (is_digit c); [|done].
    rewrite span_digits_delimited by done.
    destruct (span_digits s). by injection H as <- <-.
Qed.

Lemma match_frac_delimited s rest :
  delimited rest ->
  match_frac (s ++ rest) = (fst (match_frac s), snd (match_frac s) ++ rest).
Proof.
  intros Hr. unfold match_frac. destruct s as [|p s]; cbn [app].
  - destruct rest as [|c rest]; [done|].
    destruct Hr as [-> | ->]; done.
  - destruct (p =? 46); [|done].
    rewrite span_digits_delimited by done.
    destruct (span_digits s) as [[|d ds] r]; done.
Qed.

Lemma match_exp_delimited s rest :
  delimited rest ->
  match_exp (s ++ rest) = (fst (match_exp s), snd (match_exp s) ++ rest).
Proof.
  intros Hr. unfold match_exp. destruct s as [|e s]; cbn [app].
  - destruct rest as [|c rest]; [done|].
    destruct Hr as [-> | ->]; done.
  - destruct ((e =? 101) || (e =? 69)); [|done].
    destruct s as [|c s]; cbn [app].
    + destruct rest as [|c rest]; [done|].
      destruct Hr as [-> | ->]; done.
    + destruct ((c =? 43) || (c =? 45)).
      * rewrite span_digits_delimited by done.
        destruct (span_digits s) as [[|d ds] r]; done.
      * change (c :: s ++ rest) with ((c :: s) ++ rest).
        rewrite (span_digits_delimited (c :: s) rest Hr).
        destruct (span_digits (c :: s)) as [[|d ds] r]; done.
Qed.

Lemma match_number_delimited s rest i f e :
  match_number s = Some (i, f, e, []) ->
  delimited rest ->
  match_number (s ++ rest) = Some (i, f, e, rest).
Proof.
  unfold match_number. intros H Hr.
  destruct (match_integer s) as [[i' r1]|] eqn:Ei; [|done].
  rewrite (match_integer_delimited s rest i' r1 Ei Hr).
  rewrite match_frac_delimited by done.
  destruct (match_frac r1) as [f' r2]. cbn [fst snd].
  rewrite match_exp_delimited by done.
  destruct (match_exp r2) as [e' r3]. cbn [fst snd].
  by injection H as <- <- <- ->.
Qed.

Lemma int_repr_match_number n :
  match_number (int_repr n) = Some (int_repr n, [], [], []).
Proof.
  unfold int_repr. destruct (Z.ltb_spec n 0) as [Hneg|Hpos].
  - destruct (nat_digits_spec (- n)) as (c & d & -> & Hdig & _ & Hc); [lia|].
    cbn in Hdig. apply andb_prop in Hdig as [Hcd Hd].
    unfold match_number, match_integer. cbn.
    destruct (Z.eqb_spec c 48) as [->|_].
    + by rewrite (Hc eq_refl).
    + by rewrite Hcd, (span_digits_all d Hd).
  - destruct (nat_digits_spec n) as (c & d & -> & Hdig & _ & Hc); [lia|].
    cbn in Hdig. apply andb_prop in Hdig as [Hcd Hd].
    unfold match_number, match_integer.
    apply is_digit_spec in Hcd as Hcr.
    rewrite (proj2 (Z.eqb_neq c 45)) by lia.
    destruct (Z.eqb_spec c 48) as [->|_].
    + by rewrite (Hc eq_refl).
    + by rewrite Hcd, (span_digits_all d Hd).
Qed.

Lemma int_of_str_repr n : int_of_str (int_repr n) = n.
Proof.
  unfold int_repr, int_of_str. destruct (Z.ltb_spec n 0) as [Hneg|Hpos].
  - destruct (nat_digits_spec (- n)) as (c & d & -> & _ & Hv & _); [lia|].
    rewrite Z.eqb_refl. lia.
  - destruct (nat_digits_spec n) as (c & d & -> & Hdig & Hv & _); [lia|].
    cbn in Hdig. apply andb_prop in Hdig as [Hcd _].
    apply is_digit_spec in Hcd. rewrite (proj2 (Z.eqb_neq c 45)) by lia.
    done.
Qed.

Lemma span_digits_parts s :
  s = fst (span_digits s) ++ snd (span_digits s)
  /\ forallb number_char (fst (span_digits s)) = true.
Proof.
  induction s as [|c s [IH1 IH2]]; [done|]. cbn.
  destruct (is_digit c) eqn:E; [|done].
  destruct (span_digits s) as [d r]. cbn in *. split; [congruence|].
  unfold number_char at 1. by rewrite E, IH2.
Qed.

Lemma match_number_parts s i f e r :
  match_number s = Some (i, f, e, r) ->
  s = i ++ f ++ e ++ r
  /\ forallb number_char (i ++ f ++ e) = true
  /\ exists c i', i = c :: i' /\ (c = 45 \/ is_digit c = true).
Proof.
  unfold match_number.
  destruct (match_integer s) as [[i' r1]|] eqn:Ei; [|done].
  destruct (match_frac r1) as [f' r2] eqn:Ef.
  destruct (match_exp r2) as [e' r3] eqn:Ee.
  intros [= -> -> -> ->].
  assert (Hi : s = i ++ r1 /\ forallb number_char i = true
               /\ exists c i', i = c :: i' /\ (c = 45 \/ is_digit c = true)).
  { unfold match_integer in Ei. destruct s as [|c s]; [done|].
    destruct (Z.eqb_spec c 45) as [->|Hc].
    - destruct s as [|c' s]; [done|].
      destruct (Z.eqb_spec c' 48) as [->|Hc'].
      + injection Ei as <- <-. repeat split; eauto.
      + destruct (is_digit c') eqn:Ed; [|done].
        destruct (span_digits_parts s) as [Hs Hn].
        destruct (span_digits s) as [d r']. injection Ei as <- <-.
        cbn in *. split; [congruence|]. split; [|eauto].
        unfold number_char at 1. by rewrite Ed, Hn.
    - destruct (Z.eqb_spec c 48) as [->|Hc'].
      + injection Ei as <- <-. repeat split; eauto.
      + destruct (is_digit c) eqn:Ed; [|done].
        destruct (span_digits_parts s) as [Hs Hn].
        destruct (span_digits s) as [d r']. injection Ei as <- <-.
        cbn in *. split; [congruence|]. split; [|eauto].
        unfold number_char at 1. by rewrite Ed, Hn. }
  assert (Hf : r1 = f ++ r2 /\ forallb number_char f = true).
  { unfold match_frac in Ef. destruct r1 as [|p r1]; [by injection Ef as <- <-|].
    destruct (Z.eqb_spec p 46) as [->|Hp]; [|by injection Ef as <- <-].
    destruct (span_digits_parts r1) as [Hs Hn].
    destruct (span_digits r1) as [[|d ds] r']; injection Ef as <- <-; [done|].
    cbn in *. split; [congruence|done]. }
  assert (He : r2 = e ++ r /\ forallb number_char e = true).
  { unfold match_exp in Ee. destruct r2 as [|x r2]; [by injection Ee as <- <-|].
    destruct ((x =? 101) || (x =? 69)) eqn:Ex; [|by injection Ee as <- <-].
    assert (Hx : number_char x = true).
    { unfold number_char. apply orb_prop in Ex as [-> | ->];
        by rewrite ?orb_true_r. }
    destruct r2 as [|c r2].
    - cbn in Ee. by injection Ee as <- <-.
    - destruct ((c =? 43) || (c =? 45)) eqn:Ec.
      + assert (Hc : number_char c = true).
        { unfold number_char. apply orb_prop in Ec as [-> | ->];
            by rewrite ?orb_true_r. }
        destruct (span_digits_parts r2) as [Hs Hn].
        destruct (span_digits r2) as [[|d ds] r']; injection Ee as <- <-;
          [done|].
        cbn in *. rewrite Hx, Hc. split; [congruence|done].
      + destruct (span_digits_parts (c :: r2)) as [Hs Hn].
        destruct (span_digits (c :: r2)) as [[|d ds] r']; injection Ee as <- <-;
          [done|].
        cbn in *. rewrite Hx. split; [congruence|done]. }
  destruct Hi as (-> & Hi & Hh), Hf as (-> & Hf), He as (-> & He).
  split; [done|]. split; [|done].
  by rewrite !forallb_app, Hi, Hf, He.
Qed.

(** ** Strings: what [py_encode_basestring] writes, [scanstring] reads back *)

Lemma hex_val_hexdigit n : 0 <= n < 16 -> hex_val (hexdigit n) = Some n.
Proof.
  intros Hn. unfold hexdigit, hex_val.
  destruct (Z.ltb_spec n 10); zbool; simpl; f_equal; lia.
Qed.

Lemma scanstring_loop_S fuel c s1 :
  scanstring_loop (S fuel) (c :: s1)
  = if c =? 34 then Some ([], s1)
    else if c =? 92 then
      match s1 with
      | [] => None
      | esc :: s2 =>
          if esc =? 117 then
            match decode_uXXXX s2 with
            | None => None
            | Some (uni, s3) =>
                let pair :=
                  if (0xd800 <=? uni) && (uni <=? 0xdbff) then
                    match s3 with
                    | b :: u :: s4 =>
                        if (b =? 92) && (u =? 117) then
                          match decode_uXXXX s4 with
                          | None => None
                          | Some (uni2, s5) =>
                              if (0xdc00 <=? uni2) && (uni2 <=? 0xdfff)
                              then Some (0x10000 + (uni - 0xd800) * 1024
                                         + (uni2 - 0xdc00), s5)
                              else Some (uni, s3)
                          end
                        else Some (uni, s3)
                    | _ => Some (uni, s3)
                    end
                  else Some (uni, s3) in
                match pair with
                | None => None
                | Some (char, s') =>
                    match scanstring_loop fuel s' with
                    | None => None
                    | Some (str, r) => Some (char :: str, r)
                    end
                end
            end
          else
            match backslash esc with
            | None => None
            | Some char =>
                match scanstring_loop fuel s2 with
                | None => None
                | Some (str, r) => Some (char :: str, r)
                end
            end
      end
    else if (0 <=? c) && (c <? 32) then None
    else
      match scanstring_loop fuel s1 with
      | None => None
      | Some (str, r) => Some (c :: str, r)
      end.
Proof. reflexivity. Qed.

Lemma scanstring_loop_escaped s : forall (rest : pystr) fuel,
  (length (flat_map escape_char s ++ 34%Z :: rest) <= fuel)%nat ->
  scanstring_loop fuel (flat_map escape_char s ++ 34 :: rest) = Some (s, rest).
Proof.
  induction s as [|c s IH]; intros rest fuel Hlen.
  - destruct fuel; [simpl in Hlen; lia|]. done.
  - cbn [flat_map] in *. rewrite <- app_assoc in *.
    destruct fuel as [|fuel];
      [rewrite !length_app in Hlen; cbn [length] in Hlen; lia|].
    set (T := flat_map escape_char s ++ 34 :: rest) in *.
    assert (Hstep : forall k, (k + length T <= S fuel)%nat -> (1 <= k)%nat ->
              scanstring_loop fuel T = Some (s, rest)).
    { intros k Hk1 Hk2. apply IH. fold T. lia. }
    revert Hlen. unfold escape_char.
    repeat case_match; zhyps; subst; intros Hlen;
      rewrite length_app in Hlen; cbn [length] in Hlen;
      cbn [app]; rewrite scanstring_loop_S.
    all: try (cbn; rewrite (Hstep _ Hlen) by lia; done).
    + (* a control character written as four hexadecimal digits *)
      cbn [Z.eqb Pos.eqb]. unfold decode_uXXXX.
      change (hex_val 48) with (Some 0).
      rewrite !hex_val_hexdigit by zlia. cbn zeta.
      replace (((0 * 16 + 0) * 16 + c / 16) * 16 + c mod 16) with c by zlia.
      zbool. cbn. rewrite (Hstep _ Hlen) by lia. done.
    + zbool. cbn. rewrite (Hstep _ Hlen) by lia. done.
    + zbool. cbn. rewrite (Hstep _ Hlen) by lia. done.
Qed.

Lemma scanstring_encoded s rest :
  scanstring (flat_map escape_char s ++ 34 :: rest) = Some (s, rest).
Proof. unfold scanstring. by apply scanstring_loop_escaped. Qed.

(** ** Induction on values, items included *)

Lemma pyval_nested_ind (P : pyval -> Prop) :
  P VNone ->
  (forall b, P (VBool b)) ->
  (forall n, P (VInt n)) ->
  (forall f, P (VFloat f)) ->
  (forall s, P (VStr s)) ->
  (forall l, Forall P l -> P (VList l)) ->
  (forall d, Forall (fun kv => P (snd kv)) d -> P (VDict d)) ->
  forall v, P v.
Proof.
  intros HN HB HI HF HS HL HD.
  fix go 1. intros [| b | n | f | s | l | d].
  - exact HN.
  - apply HB.
  - apply HI.
  - apply HF.
  - apply HS.
  - apply HL. induction l as [|x l IHl]; constructor; [apply go | exact IHl].
  - apply HD. induction d as [|[k x] d IHd]; constructor;
      [apply go | exact IHd].
Qed.

Arguments newline_indent : simpl never.

Lemma join_cons_app sep p ps (tl : pystr) :
  join sep (p :: ps) ++ tl
  = p ++ match ps with
         | [] => tl
         | _ :: _ => sep ++ join sep ps ++ tl
         end.
Proof.
  destruct ps as [|q ps]; [done|].
  cbn [join]. by rewrite <- !app_assoc.
Qed.

Lemma pretty_json_atom level v :
  is_container v = false -> pretty_json level v = encode_atom v.
Proof. by destruct v. Qed.

Lemma list_items_text (chunks : pyval -> list pystr) sep (text : pyval -> pystr) l :
  Forall (fun v => is_container v = true -> concat (chunks v) = text v) l ->
  Forall (fun v => is_container v = false -> encode_atom v = text v) l ->
  forall buf,
    concat (list_items chunks sep l buf)
    = match l with
      | [] => []
      | _ :: _ => buf ++ join sep (map text l)
      end.
Proof.
  induction l as [|x l IH]; intros H1 H2 buf; [done|].
  apply Forall_cons in H1 as [Hx1 H1]. apply Forall_cons in H2 as [Hx2 H2].
  cbn [list_items]. rewrite concat_app, (IH H1 H2).
  destruct (is_container x); cbn [concat];
    rewrite ?Hx1, ?app_nil_r, ?Hx2 by done;
    (destruct l as [|y l]; [cbn; by rewrite ?app_nil_r|]);
    cbn [map join]; by rewrite <- !app_assoc.
Qed.

Lemma dict_items_text (chunks : pyval -> list pystr) sep (text : pyval -> pystr) d :
  Forall (fun kv => is_container (snd kv) = true ->
                    concat (chunks (snd kv)) = text (snd kv)) d ->
  Forall (fun kv => is_container (snd kv) = false ->
                    encode_atom (snd kv) = text (snd kv)) d ->
  forall first,
    concat (dict_items chunks sep d first)
    = match d with
      | [] => []
      | _ :: _ =>
          (if first then [] else sep)
          ++ join sep (map (fun kv => encode_basestring (fst kv) ++ [58; 32]
                                      ++ text (snd kv)) d)
      end.
Proof.
  induction d as [|[k x] d IH]; intros H1 H2 first; [done|].
  apply Forall_cons in H1 as [Hx1 H1]. apply Forall_cons in H2 as [Hx2 H2].
  cbn [dict_items fst snd] in *. rewrite !concat_app, (IH H1 H2).
  destruct (is_container x), first; cbn [concat app];
    rewrite ?Hx1, ?app_nil_r, ?Hx2 by done;
    (destruct d as [|y d]; [cbn; by rewrite ?app_nil_r, <- ?app_assoc|]);
    cbn [map join fst snd]; by rewrite <- !app_assoc.
Qed.

(** What [json.dump] writes is the format of the specification. *)
Lemma iterencode_pretty v : forall level,
  concat (iterencode v level) = pretty_json level v.
Proof.
  induction v as [| b | n | f | s | l IH | d IH] using pyval_nested_ind;
    intros level; try (cbn; by rewrite ?app_nil_r).
  - destruct l as [|x l]; [done|].
    cbn [iterencode pretty_json]. rewrite concat_app.
    rewrite (list_items_text _ _ (pretty_json (S level))).
    + cbn [concat]. by rewrite app_nil_r, <- !app_assoc.
    + eapply Forall_impl; [exact IH|]. intros v Hv _. apply Hv.
    + apply Forall_forall. intros v _ Hv. by rewrite pretty_json_atom.
  - destruct d as [|kv d]; [done|].
    cbn [iterencode pretty_json]. rewrite !concat_app.
    rewrite (dict_items_text _ _ (pretty_json (S level))).
    + cbn [concat app]. by rewrite ?app_nil_r, <- ?app_assoc.
    + eapply Forall_impl; [exact IH|]. intros v Hv _. apply Hv.
    + apply Forall_forall. intros v _ Hv. by rewrite pretty_json_atom.
Qed.

Lemma dumps_pretty v : dumps v = pretty_json 0 v.
Proof. apply iterencode_pretty. Qed.

(** ** What [json.dump] writes, [json.load] reads back *)

Lemma value_start_not_ws c : value_start c = true -> is_ws c = false.
Proof.
  unfold value_start, is_ws, is_digit. intros H.
  repeat (apply orb_prop in H as [H|H]); zhyps; subst; try done; zbool; done.
Qed.

Lemma skip_ws_start c t : value_start c = true -> skip_ws (c :: t) = c :: t.
Proof. intros H. cbn. by rewrite (value_start_not_ws c H). Qed.

Lemma skip_ws_spaces n t : skip_ws (repeat 32 n ++ t) = skip_ws t.
Proof. induction n as [|n IH]; [done|]. cbn. exact IH. Qed.

Lemma skip_ws_newline_indent k t :
  skip_ws (newline_indent k ++ t) = skip_ws t.
Proof. unfold newline_indent. cbn. apply skip_ws_spaces. Qed.

Lemma scan_once_S fuel nextchar s' :
  scan_once (S fuel) (nextchar :: s')
  = let s := nextchar :: s' in
    if nextchar =? 34 then
      match scanstring s' with
      | None => None
      | Some (str, r) => Some (VStr str, r)
      end
    else if nextchar =? 123 then JSONObject (scan_once fuel) fuel s'
    else if nextchar =? 91 then JSONArray (scan_once fuel) fuel s'
    else if startswith s (lit "null") then Some (VNone, drop 4 s)
    else if startswith s (lit "true") then Some (VBool true, drop 4 s)
    else if startswith s (lit "false") then Some (VBool false, drop 5 s)
    else
      match match_number s with
      | Some (integer, frac, exp, r) =>
          match frac, exp with
          | [], [] => Some (VInt (int_of_str integer), r)
          | _, _ => Some (VFloat (float_of_str (integer ++ frac ++ exp)), r)
          end
      | None =>
          if startswith s (lit "NaN") then Some (VFloat NaN, drop 3 s)
          else if startswith s (lit "Infinity")
          then Some (VFloat PosInf, drop 8 s)
          else if startswith s (lit "-Infinity")
          then Some (VFloat NegInf, drop 9 s)
          else None
      end.
Proof. reflexivity. Qed.

Lemma startswith_head_ne c s' (k : Z) sub :
  c <> k -> startswith (c :: s') (k :: sub) = false.
Proof. intros H. cbn. rewrite bool_decide_eq_false_2; [done|congruence]. Qed.

Lemma scan_once_number fuel s integer frac exp r :
  match_number s = Some (integer, frac, exp, r) ->
  scan_once (S fuel) s
  = match frac, exp with
    | [], [] => Some (VInt (int_of_str integer), r)
    | _, _ => Some (VFloat (float_of_str (integer ++ frac ++ exp)), r)
    end.
Proof.
  intros H. destruct (match_number_parts _ _ _ _ _ H)
    as (Hs & _ & c & i' & -> & Hc).
  cbn [app] in Hs. subst s. rewrite scan_once_S. cbn zeta.
  assert (Hr : c = 45 \/ 48 <= c <= 57).
  { destruct Hc as [->|Hc]; [by left|right]. by apply is_digit_spec. }
  rewrite (proj2 (Z.eqb_neq c 34)), (proj2 (Z.eqb_neq c 123)),
    (proj2 (Z.eqb_neq c 91)) by lia.
  change (lit "null") with (110 :: lit "ull").
  change (lit "true") with (116 :: lit "rue").
  change (lit "false") with (102 :: lit "alse").
  rewrite !startswith_head_ne by lia.
  by rewrite H.
Qed.

Section RoundTrip.
Context (FL : float_laws).

Lemma floatstr_scan fuel f rest :
  delimited rest ->
  scan_once (S fuel) (floatstr f ++ rest) = Some (VFloat f, rest).
Proof.
  intros Hr. unfold floatstr.
  destruct (float_eq f f) eqn:E1; cbn [negb].
  2: { rewrite (nan_unique FL f E1). by vm_compute. }
  destruct (float_eq f PosInf) eqn:E2.
  { rewrite (posinf_unique FL f E2). by vm_compute. }
  destruct (float_eq f NegInf) eqn:E3.
  { rewrite (neginf_unique FL f E3). by vm_compute. }
  pose proof (repr_literal FL f E1 E2 E3) as Hl.
  pose proof (repr_exact FL f E1 E2 E3) as He.
  unfold is_float_literal in Hl.
  destruct (match_number (float_repr f)) as [[[[i fr] e] r]|] eqn:Em; [|done].
  destruct r; [|done].
  destruct (match_number_parts _ _ _ _ _ Em) as (Hs & _).
  rewrite (scan_once_number fuel _ i fr e rest
             (match_number_delimited _ _ _ _ _ Em Hr)).
  rewrite app_nil_r in Hs. rewrite <- Hs, He.
  destruct fr, e; try done.
Qed.

Lemma floatstr_head f :
  exists c t, floatstr f = c :: t /\ value_start c = true.
Proof.
  unfold floatstr.
  destruct (float_eq f f) eqn:E1; cbn [negb]; [|by eexists _, _].
  destruct (float_eq f PosInf) eqn:E2; [by eexists _, _|].
  destruct (float_eq f NegInf) eqn:E3; [by eexists _, _|].
  pose proof (repr_literal FL f E1 E2 E3) as Hl.
  unfold is_float_literal in Hl.
  destruct (match_number (float_repr f)) as [[[[i fr] e] r]|] eqn:Em; [|done].
  destruct (match_number_parts _ _ _ _ _ Em) as (Hs & _ & c & i' & -> & Hc).
  exists c, (i' ++ fr ++ e ++ r). split; [done|].
  unfold value_start. destruct Hc as [-> | ->]; [done|].
  by rewrite !orb_true_r.
Qed.

Lemma int_repr_head n :
  exists c t, int_repr n = c :: t /\ value_start c = true.
Proof.
  destruct (match_number_parts _ _ _ _ _ (int_repr_match_number n))
    as (_ & _ & c & i' & -> & Hc).
  exists c, i'. split; [done|].
  unfold value_start. destruct Hc as [-> | ->]; [done|].
  by rewrite !orb_true_r.
Qed.

Lemma pretty_json_head level v :
  exists c t, pretty_json level v = c :: t /\ value_start c = true.
Proof.
  destruct v as [| [|] | n | f | s | [|x l] | [|kv d]];
    try (by eexists _, _).
  - apply int_repr_head.
  - apply floatstr_head.
Qed.

Lemma skip_ws_pretty_json level v t :
  skip_ws (pretty_json level v ++ t) = pretty_json level v ++ t.
Proof.
  destruct (pretty_json_head level v) as (c & t' & -> & Hc).
  by apply skip_ws_start.
Qed.

Lemma skip_ws_nonws c t : is_ws c = false -> skip_ws (c :: t) = c :: t.
Proof. intros H. cbn. by rewrite H. Qed.

Lemma array_loop_S scan fuel s values :
  array_loop scan (S fuel) s values
  = match scan s with
    | None => None
    | Some (value, r) =>
        let values := values ++ [value] in
        match skip_ws r with
        | nextchar :: r' =>
            if nextchar =? 93 then Some (VList values, r')
            else if nextchar =? 44
            then array_loop scan fuel (skip_ws r') values
            else None
        | [] => None
        end
    end.
Proof. reflexivity. Qed.

Lemma object_loop_S scan fuel s pairs :
  object_loop scan (S fuel) s pairs
  = match scanstring s with
    | None => None
    | Some (key, r) =>
        match skip_ws r with
        | colon :: r1 =>
            if colon =? 58 then
              match scan (skip_ws r1) with
              | None => None
              | Some (value, r2) =>
                  let pairs := pairs ++ [(key, value)] in
                  match skip_ws r2 with
                  | nextchar :: r3 =>
                      if nextchar =? 125
                      then Some (VDict (dict_of_pairs pairs), r3)
                      else if nextchar =? 44 then
                        match skip_ws r3 with
                        | q :: r4 =>
                            if q =? 34
                            then object_loop scan fuel r4 pairs
                            else None
                        | [] => None
                        end
                      else None
                  | [] => None
                  end
              end
            else None
        | [] => None
        end
    end.
Proof. reflexivity. Qed.

Lemma skip_ws_items level sep y ys (tl : pystr) :
  skip_ws (join sep (map (pretty_json level) (y :: ys)) ++ tl)
  = join sep (map (pretty_json level) (y :: ys)) ++ tl.
Proof. cbn [map]. rewrite join_cons_app. apply skip_ws_pretty_json. Qed.

Lemma array_loop_pretty scan level (rest : pystr) : forall xs x values fuel,
  Forall (fun y => forall r, delimited r ->
            scan (pretty_json (S level) y ++ r) = Some (y, r)) (x :: xs) ->
  (length (x :: xs) <= fuel)%nat ->
  array_loop scan fuel
    (join (44 :: newline_indent (S level))
       (map (pretty_json (S level)) (x :: xs))
     ++ newline_indent level ++ 93 :: rest) values
  = Some (VList (values ++ x :: xs), rest).
Proof.
  induction xs as [|y ys IH]; intros x values fuel Hscan Hlen;
    (destruct fuel as [|fuel]; [cbn in Hlen; lia|]);
    apply Forall_cons in Hscan as [Hx Hscan];
    rewrite array_loop_S; cbn [map]; rewrite join_cons_app.
  - rewrite Hx by (by right). cbn zeta.
    rewrite skip_ws_newline_indent, skip_ws_nonws by done.
    by rewrite Z.eqb_refl.
  - rewrite Hx by (by left). cbn zeta. cbn [map app].
    rewrite skip_ws_nonws by done.
    change (44 =? 93) with false. change (44 =? 44) with true. cbn iota.
    change (pretty_json (S level) y :: map (pretty_json (S level)) ys)
      with (map (pretty_json (S level)) (y :: ys)).
    rewrite skip_ws_newline_indent, skip_ws_items.
    rewrite IH; [|done|cbn in *; lia].
    by rewrite <- app_assoc.
Qed.

Lemma dict_set_fresh k v (d : list (pystr * pyval)) :
  k ∉ map fst d -> dict_set k v d = d ++ [(k, v)].
Proof.
  induction d as [|[k' v'] d IH]; intros Hk; [done|].
  cbn in *. apply not_elem_of_cons in Hk as [Hne Hk].
  rewrite decide_False by congruence. by rewrite IH.
Qed.

Lemma fold_dict_set_distinct (d2 : list (pystr * pyval)) : forall d1,
  NoDup (map fst (d1 ++ d2)) ->
  fold_left (fun d kv => dict_set (fst kv) (snd kv) d) d2 d1 = d1 ++ d2.
Proof.
  induction d2 as [|[k v] d2 IH]; intros d1 Hnd.
  - by rewrite app_nil_r.
  - cbn [fold_left fst snd]. rewrite dict_set_fresh.
    + rewrite IH; rewrite <- app_assoc; done.
    + rewrite map_app in Hnd. apply NoDup_app in Hnd as (_ & Hd & _).
      intros Hin. apply (Hd k Hin). cbn. left.
Qed.

Lemma dict_of_pairs_distinct (d : list (pystr * pyval)) :
  NoDup (map fst d) -> dict_of_pairs d = d.
Proof. intros H. unfold dict_of_pairs. by rewrite fold_dict_set_distinct. Qed.

Lemma item_text level kv :
  encode_basestring (fst kv) ++ [58; 32] ++ pretty_json level (snd kv)
  = 34 :: item_tail level kv.
Proof.
  unfold encode_basestring, item_tail. cbn [app].
  by rewrite <- app_assoc.
Qed.

Lemma item_text_cons level kv :
  encode_basestring (fst kv) ++ 58 :: 32 :: pretty_json level (snd kv)
  = 34 :: item_tail level kv.
Proof. apply item_text. Qed.

Lemma object_loop_pretty scan level (rest : pystr) : forall d kv pairs fuel,
  Forall (fun kv => forall r, delimited r ->
            scan (pretty_json (S level) (snd kv) ++ r) = Some (snd kv, r))
    (kv :: d) ->
  (length (kv :: d) <= fuel)%nat ->
  object_loop scan fuel
    (item_tail (S level) kv
     ++ match d with
        | [] => newline_indent level ++ 125 :: rest
        | _ :: _ =>
            (44 :: newline_indent (S level))
            ++ join (44 :: newline_indent (S level))
                 (map (fun kv => encode_basestring (fst kv) ++ [58; 32]
                                 ++ pretty_json (S level) (snd kv)) d)
            ++ newline_indent level ++ 125 :: rest
        end) pairs
  = Some (VDict (dict_of_pairs (pairs ++ kv :: d)), rest).
Proof.
  induction d as [|kv' d IH]; intros kv pairs fuel Hscan Hlen;
    (destruct fuel as [|fuel]; [cbn in Hlen; lia|]);
    apply Forall_cons in Hscan as [Hx Hscan];
    rewrite object_loop_S; unfold item_tail at 1.
  - rewrite <- app_assoc. cbn [app]. rewrite scanstring_encoded.
    rewrite skip_ws_nonws by done.
    change (58 =? 58) with true. cbn iota.
    change (skip_ws (32 :: ?t)) with (skip_ws t).
    cbn [app]. rewrite skip_ws_pretty_json.
    rewrite Hx by (by right). cbn zeta.
    rewrite skip_ws_newline_indent, skip_ws_nonws by done.
    rewrite Z.eqb_refl. by destruct kv.
  - rewrite <- app_assoc. cbn [app]. rewrite scanstring_encoded.
    rewrite skip_ws_nonws by done.
    change (58 =? 58) with true. cbn iota.
    change (skip_ws (32 :: ?t)) with (skip_ws t).
    cbn [app]. rewrite skip_ws_pretty_json.
    rewrite Hx by (by left). cbn zeta.
    rewrite skip_ws_nonws by done.
    change (44 =? 125) with false. change (44 =? 44) with true. cbn iota.
    rewrite skip_ws_newline_indent. cbn [map]. rewrite join_cons_app.
    rewrite item_text_cons. cbn [app]. rewrite skip_ws_nonws by done.
    change (34 =? 34) with true. cbn iota.
    specialize (IH kv' (pairs ++ [(fst kv, snd kv)]) fuel Hscan).
    rewrite <- app_assoc in IH. cbn [app] in IH.
    destruct kv as [k v]. cbn [fst snd] in *.
    destruct d as [|kv'' d]; cbn [map app] in *;
      (rewrite IH; [done|cbn in *; lia]).
Qed.

Lemma size_pos v : (1 <= size v)%nat.
Proof. destruct v; cbn; lia. Qed.

Lemma sum_list_size_length (l : list pyval) :
  (length l <= sum_list (map size l))%nat.
Proof.
  induction l as [|x l IH]; [done|]. cbn. pose proof (size_pos x). lia.
Qed.

Lemma sum_list_size_length_dict (d : list (pystr * pyval)) :
  (length d <= sum_list (map (fun kv => size (snd kv)) d))%nat.
Proof.
  induction d as [|x d IH]; [done|]. cbn. pose proof (size_pos (snd x)). lia.
Qed.

Lemma sum_list_elem (l : list nat) n : n ∈ l -> (n <= sum_list l)%nat.
Proof.
  induction l as [|m l IH]; [by intros ?%elem_of_nil|].
  intros [->|H]%elem_of_cons; cbn; [lia|]. specialize (IH H). lia.
Qed.

Lemma items_head level sep x l (tl : pystr) :
  exists c t,
    join sep (map (pretty_json level) (x :: l)) ++ tl = c :: t
    /\ value_start c = true.
Proof.
  cbn [map]. rewrite join_cons_app.
  destruct (pretty_json_head level x) as (c & t & -> & H).
  by eexists _, _.
Qed.

Lemma value_start_not_close c : value_start c = true -> (c =? 93) = false.
Proof.
  unfold value_start, is_digit. intros H.
  repeat (apply orb_prop in H as [H|H]); zhyps; lia.
Qed.

Lemma JSONArray_items scan fuel s c t :
  skip_ws s = c :: t -> (c =? 93) = false ->
  JSONArray scan fuel s = array_loop scan fuel (c :: t) [].
Proof. intros H1 H2. unfold JSONArray. by rewrite H1, H2. Qed.

Lemma pretty_json_list_app level x l (rest : pystr) :
  pretty_json level (VList (x :: l)) ++ rest
  = 91 :: newline_indent (S level)
    ++ (join (44 :: newline_indent (S level))
          (map (pretty_json (S level)) (x :: l))
        ++ newline_indent level ++ 93 :: rest).
Proof. cbn [pretty_json app]. by rewrite <- !app_assoc. Qed.

Lemma pretty_json_dict_app level kv d (rest : pystr) :
  pretty_json level (VDict (kv :: d)) ++ rest
  = 123 :: newline_indent (S level)
    ++ 34 :: (item_tail (S level) kv
     ++ match d with
        | [] => newline_indent level ++ 125 :: rest
        | _ :: _ =>
            (44 :: newline_indent (S level))
            ++ join (44 :: newline_indent (S level))
                 (map (fun kv => encode_basestring (fst kv) ++ [58; 32]
                                 ++ pretty_json (S level) (snd kv)) d)
            ++ newline_indent level ++ 125 :: rest
        end).
Proof.
  cbn [pretty_json]. cbn [map]. cbn [app]. rewrite <- !app_assoc.
  rewrite join_cons_app, item_text_cons.
  destruct d; cbn [app]; by rewrite <- ?app_assoc.
Qed.

(** With fuel for every value in it, a value that was pretty-printed is
    scanned back, up to the text that follows it. *)
Lemma scan_once_pretty v : forall level fuel rest,
  distinct_keys v = true ->
  (size v <= fuel)%nat ->
  delimited rest ->
  scan_once fuel (pretty_json level v ++ rest) = Some (v, rest).
Proof.
  induction v as [| b | n | f | s | l IH | d IH] using pyval_nested_ind;
    intros level fuel rest Hwf Hfuel Hrest;
    (destruct fuel as [|fuel]; [cbn in Hfuel; lia|]).
  - by vm_compute.
  - destruct b; by vm_compute.
  - cbn [pretty_json encode_atom].
    rewrite (scan_once_number fuel _ (int_repr n) [] [] rest).
    + by rewrite int_of_str_repr.
    + apply match_number_delimited; [apply int_repr_match_number|done].
  - by apply floatstr_scan.
  - cbn [pretty_json encode_atom]. unfold encode_basestring.
    cbn [app]. rewrite scan_once_S. cbn zeta. change (34 =? 34) with true.
    cbn iota. rewrite <- app_assoc. cbn [app].
    by rewrite scanstring_encoded.
  - destruct l as [|x l]; [by vm_compute|].
    rewrite pretty_json_list_app, scan_once_S. cbn zeta.
    change (91 =? 34) with false. change (91 =? 123) with false.
    change (91 =? 91) with true. cbn iota.
    destruct (items_head (S level) (44 :: newline_indent (S level)) x l
                (newline_indent level ++ 93 :: rest)) as (c & t & HT & Hc).
    rewrite (JSONArray_items _ _ _ c t).
    2: { by rewrite skip_ws_newline_indent, skip_ws_items. }
    2: { by apply value_start_not_close. }
    rewrite <- HT.
    rewrite (array_loop_pretty (scan_once fuel) level rest l x []).
    + done.
    + cbn [distinct_keys] in Hwf. rewrite forallb_forall in Hwf.
      rewrite Forall_forall in IH. apply Forall_forall.
      intros y Hy r Hr. apply IH; [done| | |done].
      * apply Hwf. by apply list_elem_of_In.
      * cbn [size] in Hfuel.
        assert (size y <= sum_list (map size (x :: l)))%nat; [|lia].
        apply sum_list_elem. apply list_elem_of_fmap. eauto.
    + cbn [size] in Hfuel. pose proof (sum_list_size_length (x :: l)). lia.
  - destruct d as [|kv d]; [by vm_compute|].
    rewrite pretty_json_dict_app, scan_once_S. cbn zeta.
    change (123 =? 34) with false. change (123 =? 123) with true. cbn iota.
    unfold JSONObject. rewrite skip_ws_newline_indent.
    rewrite skip_ws_nonws by done.
    change (34 =? 125) with false. change (34 =? 34) with true. cbn iota.
    cbn [distinct_keys] in Hwf. apply andb_prop in Hwf as [Hnd Hwf].
    apply bool_decide_eq_true in Hnd.
    rewrite (object_loop_pretty (scan_once fuel) level rest d kv []).
    + cbn [app]. by rewrite (dict_of_pairs_distinct _ Hnd).
    + rewrite forallb_forall in Hwf.
      rewrite Forall_forall in IH. apply Forall_forall.
      intros y Hy r Hr. apply IH; [done| | |done].
      * apply (Hwf y). by apply list_elem_of_In.
      * cbn [size] in Hfuel.
        assert (size (snd y)
                <= sum_list (map (fun kv => size (snd kv)) (kv :: d)))%nat;
          [|lia].
        apply sum_list_elem.
        apply (list_elem_of_fmap_2 (fun kv => size (snd kv))). done.
    + cbn [size] in Hfuel. pose proof (sum_list_size_length_dict (kv :: d)).
      lia.
Qed.

(** ** The fuel of the scanner is never what stops it

    Every scan consumes text, so the fuel [json.loads] starts with, one
    more than the length of the document, is never used up: with any
    greater fuel the outcome is the same. *)

Lemma skip_ws_length s : (length (skip_ws s) <= length s)%nat.
Proof.
  induction s as [|c s IH]; [done|]. cbn. destruct (is_ws c); cbn; lia.
Qed.

Lemma decode_uXXXX_length s uni r :
  decode_uXXXX s = Some (uni, r) -> (length r < length s)%nat.
Proof.
  unfold decode_uXXXX. destruct s as [|a [|b [|c [|d s]]]]; try done.
  destruct (hex_val a), (hex_val b), (hex_val c), (hex_val d); try done.
  intros [= _ <-]. cbn. lia.
Qed.

Lemma scanstring_loop_length fuel : forall s str r,
  scanstring_loop fuel s = Some (str, r) -> (length r < length s)%nat.
Proof.
  induction fuel as [|fuel IH]; intros s str r; [done|].
  destruct s as [|c s1]; [done|]. rewrite scanstring_loop_S.
  destruct (c =? 34); [intros [= _ <-]; cbn; lia|].
  destruct (c =? 92).
  - destruct s1 as [|esc s2]; [done|]. destruct (esc =? 117).
    + destruct (decode_uXXXX s2) as [[uni s3]|] eqn:E1; [|done].
      apply decode_uXXXX_length in E1. cbn zeta.
      match goal with
      | |- match ?p with _ => _ end = _ -> _ =>
          assert (Hp : forall ch s', p = Some (ch, s') ->
                         (length s' <= length s3)%nat);
          [|destruct p as [[ch s']|] eqn:Ep; [|done]]
      end.
      { intros ch s'. destruct ((55296 <=? uni) && (uni <=? 56319));
          [|intros [= _ <-]; lia].
        destruct s3 as [|b [|u s4]]; try (intros [= _ <-]; lia).
        destruct ((b =? 92) && (u =? 117)); [|intros [= _ <-]; lia].
        destruct (decode_uXXXX s4) as [[uni2 s5]|] eqn:E2; [|done].
        apply decode_uXXXX_length in E2.
        destruct ((56320 <=? uni2) && (uni2 <=? 57343));
          intros [= _ <-]; cbn; lia. }
      specialize (Hp _ _ eq_refl).
      destruct (scanstring_loop fuel s') as [[str' r']|] eqn:El; [|done].
      apply IH in El. intros [= _ <-]. cbn in *. lia.
    + destruct (backslash esc); [|done].
      destruct (scanstring_loop fuel s2) as [[str' r']|] eqn:El; [|done].
      apply IH in El. intros [= _ <-]. cbn. lia.
  - destruct ((0 <=? c) && (c <? 32)); [done|].
    destruct (scanstring_loop fuel s1) as [[str' r']|] eqn:El; [|done].
    apply IH in El. intros [= _ <-]. cbn. lia.
Qed.

Lemma scanstring_length s str r :
  scanstring s = Some (str, r) -> (length r < length s)%nat.
Proof. apply scanstring_loop_length. Qed.

Lemma array_loop_agree scan1 scan2 n :
  agree_upto n scan1 scan2 ->
  forall fuel1 fuel2 s values,
    (length s <= n)%nat -> (length s < fuel1)%nat -> (length s < fuel2)%nat ->
    array_loop scan1 fuel1 s values = array_loop scan2 fuel2 s values
    /\ forall v r, array_loop scan1 fuel1 s values = Some (v, r) ->
         (length r < length s)%nat.
Proof.
  intros Hag. induction fuel1 as [|fuel1 IH]; intros fuel2 s values Hn H1 H2;
    [lia|].
  destruct fuel2 as [|fuel2]; [lia|]. rewrite !array_loop_S.
  destruct (Hag s Hn) as [Heq Hlen]. rewrite <- Heq.
  destruct (scan1 s) as [[value r]|]; [|done].
  specialize (Hlen _ _ eq_refl). cbn zeta.
  pose proof (skip_ws_length r) as Hr.
  destruct (skip_ws r) as [|nextchar r'] eqn:Er; [done|]. cbn [length] in Hr.
  destruct (nextchar =? 93).
  { split; [done|]. intros v r0 [= _ <-]. lia. }
  destruct (nextchar =? 44); [|done].
  pose proof (skip_ws_length r') as Hr'.
  destruct (IH fuel2 (skip_ws r') (values ++ [value])) as [Hl Hlr]; try lia.
  split; [done|]. intros v r0 H. apply Hlr in H. lia.
Qed.

Lemma object_loop_agree scan1 scan2 n :
  agree_upto n scan1 scan2 ->
  forall fuel1 fuel2 s pairs,
    (length s <= n)%nat -> (length s < fuel1)%nat -> (length s < fuel2)%nat ->
    object_loop scan1 fuel1 s pairs = object_loop scan2 fuel2 s pairs
    /\ forall v r, object_loop scan1 fuel1 s pairs = Some (v, r) ->
         (length r < length s)%nat.
Proof.
  intros Hag. induction fuel1 as [|fuel1 IH]; intros fuel2 s pairs Hn H1 H2;
    [lia|].
  destruct fuel2 as [|fuel2]; [lia|]. rewrite !object_loop_S.
  destruct (scanstring s) as [[key r]|] eqn:Ek; [|done].
  apply scanstring_length in Ek.
  pose proof (skip_ws_length r) as Hr.
  destruct (skip_ws r) as [|colon r1] eqn:Er; [done|]. cbn [length] in Hr.
  destruct (colon =? 58); [|done].
  pose proof (skip_ws_length r1) as Hr1.
  destruct (Hag (skip_ws r1) ltac:(lia)) as [Heq Hlen]. rewrite <- Heq.
  destruct (scan1 (skip_ws r1)) as [[value r2]|]; [|done].
  specialize (Hlen _ _ eq_refl). cbn zeta.
  pose proof (skip_ws_length r2) as Hr2.
  destruct (skip_ws r2) as [|nextchar r3] eqn:Er2; [done|].
  cbn [length] in Hr2.
  destruct (nextchar =? 125).
  { split; [done|]. intros v r0 [= _ <-]. lia. }
  destruct (nextchar =? 44); [|done].
  pose proof (skip_ws_length r3) as Hr3.
  destruct (skip_ws r3) as [|q r4] eqn:Er3; [done|]. cbn [length] in Hr3.
  destruct (q =? 34); [|done].
  destruct (IH fuel2 r4 (pairs ++ [(key, value)])) as [Hl Hlr]; try lia.
  split; [done|]. intros v r0 H. apply Hlr in H. lia.
Qed.

Lemma scan_once_agree n : forall fuel1 fuel2,
  (n < fuel1)%nat -> (n < fuel2)%nat ->
  agree_upto n (scan_once fuel1) (scan_once fuel2).
Proof.
  induction n as [|n IH]; intros fuel1 fuel2 H1 H2 s Hn.
  - destruct s; [|cbn in Hn; lia].
    destruct fuel1, fuel2; try lia. done.
  - destruct fuel1 as [|fuel1], fuel2 as [|fuel2]; try lia.
    destruct s as [|nextchar s']; [done|]. cbn [length] in Hn.
    rewrite !scan_once_S. cbn zeta.
    specialize (IH fuel1 fuel2 ltac:(lia) ltac:(lia)).
    destruct (nextchar =? 34).
    { split; [done|]. destruct (scanstring s') as [[str r]|] eqn:E; [|done].
      apply scanstring_length in E. intros v r0 [= _ <-]. cbn. lia. }
    destruct (nextchar =? 123).
    { unfold JSONObject. pose proof (skip_ws_length s') as Hs.
      destruct (skip_ws s') as [|c r] eqn:E; [done|]. cbn [length] in Hs.
      destruct (c =? 125).
      { split; [done|]. intros v r0 [= _ <-]. cbn. lia. }
      destruct (c =? 34); [|done].
      destruct (object_loop_agree _ _ n IH fuel1 fuel2 r [])
        as [Hl Hlr]; try lia.
      split; [done|]. intros v r0 H. apply Hlr in H. cbn. lia. }
    destruct (nextchar =? 91).
    { unfold JSONArray. pose proof (skip_ws_length s') as Hs.
      destruct (skip_ws s') as [|c r] eqn:E; [done|]. cbn [length] in Hs.
      destruct (c =? 93).
      { split; [done|]. intros v r0 [= _ <-]. cbn. lia. }
      destruct (array_loop_agree _ _ n IH fuel1 fuel2 (c :: r) [])
        as [Hl Hlr]; cbn [length]; try lia.
      split; [done|]. intros v r0 H. apply Hlr in H. cbn in *. lia. }
    split; [done|]. intros v r.
    assert (Hdrop : forall k, (length (drop k s') < length (nextchar :: s'))%nat).
    { intros k. rewrite length_drop. cbn. lia. }
    destruct (startswith _ (lit "null")); [intros [= _ <-]; apply Hdrop|].
    destruct (startswith _ (lit "true")); [intros [= _ <-]; apply Hdrop|].
    destruct (startswith _ (lit "false")); [intros [= _ <-]; apply Hdrop|].
    destruct (match_number _) as [[[[i f] e] r1]|] eqn:En.
    + apply match_number_parts in En as (Hs & _ & c & i' & -> & _).
      rewrite Hs.
      destruct f, e; intros [= _ <-]; rewrite ?length_app; cbn; lia.
    + destruct (startswith _ (lit "NaN")); [intros [= _ <-]; apply Hdrop|].
      destruct (startswith _ (lit "Infinity"));
        [intros [= _ <-]; apply Hdrop|].
      destruct (startswith _ (lit "-Infinity"));
        [intros [= _ <-]; apply Hdrop|done].
Qed.

Lemma scan_once_fuel_irrelevant fuel s :
  (length s < fuel)%nat -> scan_once fuel s = scan_once (S (length s)) s.
Proof.
  intros H. by apply (scan_once_agree (length s) fuel (S (length s))); try lia.
Qed.

(** ** What [json.load] builds has distinct keys

    The decoder makes a dict of the pairs of an object, so the values it
    returns satisfy [distinct_keys], and so do the records [partition]
    takes from them. *)

Lemma dict_set_key_in k v (d : list (pystr * pyval)) x :
  x ∈ map fst (dict_set k v d) -> x = k \/ x ∈ map fst d.
Proof.
  induction d as [|[k' v'] d IH]; cbn.
  - intros ->%list_elem_of_singleton. by left.
  - destruct (decide (k' = k)); cbn; [by right|].
    intros [->|H]%elem_of_cons; [right; left|].
    destruct (IH H) as [->|Hin]; [by left|right; by right].
Qed.

Lemma dict_set_NoDup k v (d : list (pystr * pyval)) :
  NoDup (map fst d) -> NoDup (map fst (dict_set k v d)).
Proof.
  induction d as [|[k' v'] d IH]; cbn; intros Hnd.
  - apply NoDup_singleton.
  - destruct (decide (k' = k)); [done|]. cbn.
    apply NoDup_cons in Hnd as [Hk Hnd]. apply NoDup_cons. split; [|auto].
    intros [->|Hin]%dict_set_key_in; done.
Qed.

Lemma dict_set_values (P : pyval -> Prop) k v (d : list (pystr * pyval)) :
  P v -> Forall (fun kv => P (snd kv)) d ->
  Forall (fun kv => P (snd kv)) (dict_set k v d).
Proof.
  intros Hv. induction d as [|[k' v'] d IH]; cbn; intros Hd.
  - by repeat constructor.
  - apply Forall_cons in Hd as [Hkv Hd].
    destruct (decide (k' = k)); constructor; auto.
Qed.

Lemma dict_of_pairs_distinct_keys (pairs : list (pystr * pyval)) :
  Forall (fun kv => distinct_keys (snd kv) = true) pairs ->
  distinct_keys (VDict (dict_of_pairs pairs)) = true.
Proof.
  unfold dict_of_pairs.
  assert (H : forall d,
    NoDup (map fst d) -> Forall (fun kv => distinct_keys (snd kv) = true) d ->
    Forall (fun kv => distinct_keys (snd kv) = true) pairs ->
    distinct_keys
      (VDict (fold_left (fun d kv => dict_set (fst kv) (snd kv) d) pairs d))
    = true).
  { induction pairs as [|[k v] pairs IH]; intros d Hnd Hd Hp.
    - cbn. apply andb_true_intro. split; [by apply bool_decide_eq_true|].
      apply forallb_forall. intros kv Hin%list_elem_of_In.
      by apply (proj1 (Forall_forall _ _) Hd).
    - apply Forall_cons in Hp as [Hv Hp]. cbn [fold_left fst snd].
      apply IH; [by apply dict_set_NoDup| |done].
      by apply (dict_set_values (fun v => distinct_keys v = true)). }
  intros Hp. apply H; [apply NoDup_nil_2|done|done].
Qed.

Lemma array_loop_distinct_keys scan :
  (forall s v r, scan s = Some (v, r) -> distinct_keys v = true) ->
  forall fuel s values v r,
    Forall (fun x => distinct_keys x = true) values ->
    array_loop scan fuel s values = Some (v, r) -> distinct_keys v = true.
Proof.
  intros Hscan. induction fuel as [|fuel IH]; intros s values v r Hvs; [done|].
  rewrite array_loop_S.
  destruct (scan s) as [[value r0]|] eqn:Es; [|done]. apply Hscan in Es.
  cbn zeta. destruct (skip_ws r0) as [|nextchar r']; [done|].
  assert (Hvs' : Forall (fun x => distinct_keys x = true) (values ++ [value])).
  { apply Forall_app. split; [done|]. by repeat constructor. }
  destruct (nextchar =? 93).
  { intros [= <- _]. cbn. apply forallb_forall.
    intros x Hin%list_elem_of_In.
    by apply (proj1 (Forall_forall _ _) Hvs'). }
  destruct (nextchar =? 44); [|done]. by apply IH.
Qed.

Lemma object_loop_distinct_keys scan :
  (forall s v r, scan s = Some (v, r) -> distinct_keys v = true) ->
  forall fuel s pairs v r,
    Forall (fun kv => distinct_keys (snd kv) = true) pairs ->
    object_loop scan fuel s pairs = Some (v, r) -> distinct_keys v = true.
Proof.
  intros Hscan. induction fuel as [|fuel IH]; intros s pairs v r Hps; [done|].
  rewrite object_loop_S.
  destruct (scanstring s) as [[key r0]|]; [|done].
  destruct (skip_ws r0) as [|colon r1]; [done|].
  destruct (colon =? 58); [|done].
  destruct (scan (skip_ws r1)) as [[value r2]|] eqn:Es; [|done].
  apply Hscan in Es. cbn zeta.
  assert (Hps' : Forall (fun kv => distinct_keys (snd kv) = true)
                   (pairs ++ [(key, value)])).
  { apply Forall_app. split; [done|]. by repeat constructor. }
  destruct (skip_ws r2) as [|nextchar r3]; [done|].
  destruct (nextchar =? 125).
  { intros [= <- _]. by apply dict_of_pairs_distinct_keys. }
  destruct (nextchar =? 44); [|done].
  destruct (skip_ws r3) as [|q r4]; [done|].
  destruct (q =? 34); [|done]. by apply IH.
Qed.

Lemma scan_once_distinct_keys fuel : forall s v r,
  scan_once fuel s = Some (v, r) -> distinct_keys v = true.
Proof.
  induction fuel as [|fuel IH]; intros s v r; [done|].
  destruct s as [|nextchar s']; [done|]. rewrite scan_once_S. cbn zeta.
  destruct (nextchar =? 34).
  { destruct (scanstring s') as [[str r0]|]; [|done]. by intros [= <- _]. }
  destruct (nextchar =? 123).
  { unfold JSONObject. destruct (skip_ws s') as [|c r0]; [done|].
    destruct (c =? 125); [by intros [= <- _]|].
    destruct (c =? 34); [|done].
    by apply (object_loop_distinct_keys _ IH). }
  destruct (nextchar =? 91).
  { unfold JSONArray. destruct (skip_ws s') as [|c r0]; [done|].
    destruct (c =? 93); [by intros [= <- _]|].
    by apply (array_loop_distinct_keys _ IH). }
  destruct (startswith _ (lit "null")); [by intros [= <- _]|].
  destruct (startswith _ (lit "true")); [by intros [= <- _]|].
  destruct (startswith _ (lit "false")); [by intros [= <- _]|].
  destruct (match_number _) as [[[[i f] e] r1]|].
  - destruct f, e; by intros [= <- _].
  - destruct (startswith _ (lit "NaN")); [by intros [= <- _]|].
    destruct (startswith _ (lit "Infinity")); [by intros [= <- _]|].
    destruct (startswith _ (lit "-Infinity")); [by intros [= <- _]|done].
Qed.

Lemma loads_distinct_keys s v : loads s = inr v -> distinct_keys v = true.
Proof.
  unfold loads. destruct (startswith s [65279]); [done|].
  destruct (scan_once _ _) as [[obj r]|] eqn:E; [|done].
  destruct (skip_ws r); [|done]. intros [= <-].
  by apply scan_once_distinct_keys in E.
Qed.

Lemma partition_loop_members items : forall valid errored valid' errored',
  partition_loop items valid errored = inr (valid', errored') ->
  forall r, r ∈ valid' \/ r ∈ errored' ->
    r ∈ valid \/ r ∈ errored \/ r ∈ items.
Proof.
  induction items as [|x items IH]; intros valid errored valid' errored' H r Hr.
  - simpl in H. injection H as <- <-. tauto.
  - simpl in H. destruct (py_contains (lit "error") x) as [e|[|]];
      [discriminate| |];
      destruct (IH _ _ _ _ H r Hr) as [Hin|[Hin|Hin]];
      rewrite ?elem_of_app, ?list_elem_of_singleton in Hin;
      rewrite elem_of_cons; tauto.
Qed.

Lemma partition_distinct_keys records valid errored :
  distinct_keys records = true ->
  partition records = inr (valid, errored) ->
  distinct_keys (VList valid) = true /\ distinct_keys (VList errored) = true.
Proof.
  unfold partition, rbind. intros Hwf H.
  destruct (py_iter records) as [e|items] eqn:Ei; [discriminate|].
  assert (Hitems : forall r, r ∈ items -> distinct_keys r = true).
  { destruct records; try discriminate; injection Ei as <-.
    - intros r (c & -> & _)%list_elem_of_fmap. done.
    - cbn in Hwf. rewrite forallb_forall in Hwf.
      intros r Hr%list_elem_of_In. auto.
    - intros r (kv & -> & _)%list_elem_of_fmap. done. }
  pose proof (partition_loop_members _ _ _ _ _ H) as Hm.
  cbn [distinct_keys]. rewrite !forallb_forall.
  split; intros r Hr%list_elem_of_In; apply Hitems;
    destruct (Hm r) as [Hin|[Hin|Hin]]; auto;
    by apply elem_of_nil in Hin.
Qed.

(** ** The characters of the text that is written *)

Lemma strings_all_impl (P Q : Z -> bool) v :
  (forall c, P c = true -> Q c = true) ->
  strings_all P v = true -> strings_all Q v = true.
Proof.
  intros HPQ.
  assert (Hs : forall s, forallb P s = true -> forallb Q s = true).
  { intros s. rewrite !forallb_forall. auto. }
  induction v as [| b | n | f | s | l IH | d IH] using pyval_nested_ind;
    cbn [strings_all]; auto.
  - rewrite !forallb_forall. rewrite Forall_forall in IH.
    intros H x Hx. apply IH; [by apply list_elem_of_In|by apply H].
  - rewrite !forallb_forall. rewrite Forall_forall in IH.
    intros H x Hx. specialize (H x Hx). apply andb_prop in H as [H1 H2].
    rewrite (Hs _ H1). cbn. apply IH; [by apply list_elem_of_In|done].
Qed.

Lemma strings_all_true (P : Z -> bool) v :
  (forall c, P c = true) -> strings_all P v = true.
Proof.
  intros HP. apply (strings_all_impl (fun _ => true)); [auto|].
  induction v as [| b | n | f | s | l IH | d IH] using pyval_nested_ind;
    cbn [strings_all]; auto.
  - by induction s.
  - rewrite forallb_forall. rewrite Forall_forall in IH.
    intros x Hx. apply IH. by apply list_elem_of_In.
  - rewrite forallb_forall. rewrite Forall_forall in IH.
    intros x Hx. apply andb_true_intro. split.
    + by induction (fst x).
    + apply IH. by apply list_elem_of_In.
Qed.

Lemma number_char_printable c : number_char c = true -> printable c = true.
Proof.
  unfold number_char, printable, is_digit. intros H.
  repeat (apply orb_prop in H as [H|H]); zhyps; subst; zbool; done.
Qed.

Section Chars.
Context (P : Z -> bool).
Context (Hprint : forall c, printable c = true -> P c = true).
Context (Hnl : P 10 = true).

Lemma printable_all s : forallb printable s = true -> forallb P s = true.
Proof. rewrite !forallb_forall. auto. Qed.

Lemma hexdigit_char n : 0 <= n < 16 -> P (hexdigit n) = true.
Proof.
  intros Hn. apply Hprint. unfold hexdigit, printable.
  destruct (Z.ltb_spec n 10); zbool; done.
Qed.

Lemma escape_char_chars c :
  P c || escaped c = true -> forallb P (escape_char c) = true.
Proof.
  unfold escape_char. intros H.
  repeat case_match; zhyps; subst;
    try (apply printable_all; reflexivity).
  all: first
    [ cbn; rewrite !hexdigit_char by zlia; by rewrite !Hprint
    | cbn; by rewrite H
    | exfalso; unfold escaped in H; zhyps; lia ].
Qed.

Lemma encode_basestring_chars s :
  forallb (fun c => P c || escaped c) s = true ->
  forallb P (encode_basestring s) = true.
Proof.
  intros H. unfold encode_basestring. cbn [forallb].
  rewrite Hprint by done. rewrite forallb_app. cbn.
  rewrite Hprint by done. rewrite !andb_true_r.
  induction s as [|c s IH]; [done|]. cbn in *.
  apply andb_prop in H as [Hc H].
  by rewrite forallb_app, (escape_char_chars c Hc), IH.
Qed.

Lemma newline_indent_chars k : forallb P (newline_indent k) = true.
Proof.
  unfold newline_indent. generalize (4 * k)%nat. intros n.
  cbn [forallb]. rewrite Hnl. cbn [andb].
  induction n as [|n IH]; [done|]. cbn.
  by rewrite Hprint.
Qed.

Lemma int_repr_chars n : forallb P (int_repr n) = true.
Proof.
  destruct (match_number_parts _ _ _ _ _ (int_repr_match_number n))
    as (_ & H & _).
  rewrite !app_nil_r in H. rewrite forallb_forall in *.
  intros c Hc. by apply Hprint, number_char_printable, H.
Qed.

Lemma floatstr_chars f : forallb P (floatstr f) = true.
Proof.
  unfold floatstr.
  destruct (float_eq f f) eqn:E1; cbn [negb];
    [|apply printable_all; reflexivity].
  destruct (float_eq f PosInf) eqn:E2; [apply printable_all; reflexivity|].
  destruct (float_eq f NegInf) eqn:E3; [apply printable_all; reflexivity|].
  pose proof (repr_literal FL f E1 E2 E3) as Hl.
  unfold is_float_literal in Hl.
  destruct (match_number (float_repr f)) as [[[[i fr] e] r]|] eqn:Em; [|done].
  destruct r; [|done].
  destruct (match_number_parts _ _ _ _ _ Em) as (Hs & H & _).
  rewrite app_nil_r in Hs. rewrite Hs. rewrite forallb_forall in *.
  intros c Hc. by apply Hprint, number_char_printable, H.
Qed.

Lemma encode_atom_chars v :
  strings_all (fun c => P c || escaped c) v = true ->
  forallb P (encode_atom v) = true.
Proof.
  destruct v as [| [|] | n | f | s | l | d]; intros H;
    try (apply printable_all; reflexivity).
  - apply int_repr_chars.
  - apply floatstr_chars.
  - by apply encode_basestring_chars.
Qed.

Lemma join_chars sep parts :
  forallb P sep = true ->
  Forall (fun p => forallb P p = true) parts ->
  forallb P (join sep parts) = true.
Proof.
  intros Hsep. induction parts as [|p [|q parts] IH]; intros H; [done| |].
  - cbn. by apply Forall_cons in H as [H _].
  - apply Forall_cons in H as [Hp H]. cbn [join].
    rewrite !forallb_app, Hp, Hsep. cbn. by apply IH.
Qed.

Lemma bracket_chars o c (nl1 body nl2 : pystr) :
  P o = true -> P c = true -> forallb P nl1 = true ->
  forallb P body = true -> forallb P nl2 = true ->
  forallb P (o :: nl1 ++ body ++ nl2 ++ [c]) = true.
Proof.
  intros Ho Hc H1 Hb H2. cbn [forallb].
  rewrite !forallb_app, Ho, H1, Hb, H2. cbn. by rewrite Hc.
Qed.

Lemma pretty_json_chars v : forall level,
  strings_all (fun c => P c || escaped c) v = true ->
  forallb P (pretty_json level v) = true.
Proof.
  induction v as [| b | n | f | s | l IH | d IH] using pyval_nested_ind;
    intros level H; try (by apply encode_atom_chars).
  - destruct l as [|x l]; [apply printable_all; reflexivity|].
    cbn [pretty_json].
    apply bracket_chars; auto using newline_indent_chars.
    apply join_chars.
    + cbn [forallb]. by rewrite Hprint, newline_indent_chars.
    + cbn [strings_all] in H. rewrite forallb_forall in H.
      rewrite Forall_forall in IH. apply Forall_forall.
      intros p (y & -> & Hy)%list_elem_of_fmap.
      apply IH; [done|]. by apply H, list_elem_of_In.
  - destruct d as [|kv d]; [apply printable_all; reflexivity|].
    cbn [pretty_json].
    apply bracket_chars; auto using newline_indent_chars.
    apply join_chars.
    + cbn [forallb]. by rewrite Hprint, newline_indent_chars.
    + cbn [strings_all] in H. rewrite forallb_forall in H.
      rewrite Forall_forall in IH. apply Forall_forall.
      intros p (y & -> & Hy)%list_elem_of_fmap.
      specialize (H y (proj1 (list_elem_of_In _ _) Hy)).
      apply andb_prop in H as [Hk Hv]. cbn beta.
      rewrite !forallb_app.
      apply andb_true_intro. split; [by apply encode_basestring_chars|].
      apply andb_true_intro. split; [apply printable_all; reflexivity|].
      by apply IH.
Qed.

End Chars.

Lemma pretty_json_no_cr level v : 13 ∉ pretty_json level v.
Proof.
  assert (H : forallb (fun c => negb (c =? 13)) (pretty_json level v) = true).
  { apply pretty_json_chars.
    - intros c Hc. unfold printable in Hc. zhyps. zbool. done.
    - done.
    - apply strings_all_true. intros c. unfold escaped.
      destruct (Z.eqb_spec c 13) as [->|]; done. }
  rewrite forallb_forall in H. intros Hin%list_elem_of_In.
  by specialize (H 13 Hin).
Qed.

Lemma printable_scalar c : printable c = true -> scalar_value c = true.
Proof. unfold printable, scalar_value. intros H. zhyps. zbool. done. Qed.

(** Without a surrogate in its strings, the text of a value is encoded. *)
Lemma pretty_json_encodable level v :
  strings_all scalar_value v = true ->
  is_Some (utf8_encode (pretty_json level v)).
Proof.
  intros H. apply utf8_encode_scalar.
  apply pretty_json_chars; [apply printable_scalar|done|].
  revert H. apply strings_all_impl. by intros c ->.
Qed.

(** ** Fuel: the text of a value is at least as long as the value is big *)

Lemma length_join_ge sep (parts : list pystr) :
  (sum_list (map length parts) <= length (join sep parts))%nat.
Proof.
  induction parts as [|p [|q parts] IH]; [done| |].
  - cbn. lia.
  - change (join sep (p :: q :: parts))
      with (p ++ sep ++ join sep (q :: parts)).
    rewrite !length_app. change (map length (p :: q :: parts))
      with (length p :: map length (q :: parts)).
    cbn [sum_list sum_list_with]. unfold id.
    eapply Nat.le_trans; [apply Nat.add_le_mono_l, IH|]. lia.
Qed.

Lemma sum_list_le (A : Type) (f g : A -> nat) (l : list A) :
  Forall (fun x => (f x <= g x)%nat) l ->
  (sum_list (map f l) <= sum_list (map g l))%nat.
Proof.
  induction 1 as [|x l Hx _ IH]; [done|]. cbn. lia.
Qed.

Lemma size_le_length v : forall level,
  (size v <= length (pretty_json level v))%nat.
Proof.
  induction v as [| b | n | f | s | l IH | d IH] using pyval_nested_ind;
    intros level;
    try (match goal with
         | |- (size ?v <= _)%nat =>
             destruct (pretty_json_head level v) as (c & t & Hc & _);
             rewrite Hc; cbn; lia
         end).
  - destruct l as [|x l]; [cbn; lia|].
    cbn [pretty_json size length]. rewrite !length_app.
    pose proof (length_join_ge (44 :: newline_indent (S level))
                  (map (pretty_json (S level)) (x :: l))) as Hj.
    rewrite map_map in Hj.
    pose proof (sum_list_le _ size
                  (fun y => length (pretty_json (S level) y)) (x :: l)) as Hs.
    cbn beta in Hs. unfold pystr in *.
    assert (Hall : Forall (fun y => (size y <= length (pretty_json (S level) y))%nat)
                     (x :: l)).
    { eapply Forall_impl; [exact IH|]. intros y Hy. apply Hy. }
    specialize (Hs Hall). lia.
  - destruct d as [|kv d]; [cbn; lia|].
    cbn [pretty_json size length]. rewrite !length_app.
    pose proof (length_join_ge (44 :: newline_indent (S level))
                  (map (fun kv => encode_basestring (fst kv) ++ [58; 32]
                           ++ pretty_json (S level) (snd kv)) (kv :: d))) as Hj.
    rewrite map_map in Hj.
    pose proof (sum_list_le _ (fun kv => size (snd kv))
                  (fun kv => length (encode_basestring (fst kv) ++ [58; 32]
                           ++ pretty_json (S level) (snd kv))) (kv :: d)) as Hs.
    cbn beta in Hs. unfold pystr in *.
    assert (Hall := fun H => Hs H). clear Hs.
    specialize (Hall ltac:(eapply Forall_impl; [exact IH|];
      intros y Hy; cbn beta in *; rewrite !length_app;
      specialize (Hy (S level)); lia)).
    lia.
Qed.

(** ** [json.loads] after [json.dumps] *)

Lemma loads_dumps v :
  distinct_keys v = true -> loads (dumps v) = inr v.
Proof.
  intros Hwf. rewrite dumps_pretty. unfold loads.
  destruct (pretty_json_head 0 v) as (c & t & Hc & Hstart).
  assert (Hbom : startswith (pretty_json 0 v) [65279] = false).
  { rewrite Hc. apply startswith_head_ne.
    unfold value_start, is_digit in Hstart.
    repeat (apply orb_prop in Hstart as [Hstart|Hstart]); zhyps; lia. }
  rewrite Hbom.
  pose proof (skip_ws_pretty_json 0 v []) as Hskip.
  rewrite app_nil_r in Hskip. rewrite Hskip.
  pose proof (scan_once_pretty v 0 (S (length (pretty_json 0 v))) [] Hwf) as Hs.
  rewrite app_nil_r in Hs. rewrite Hs; [done| |done].
  pose proof (size_le_length v 0). lia.
Qed.

(** ** Writing and reading files *)

Lemma world_eta w : World (files w) (console w) = w.
Proof. by destruct w. Qed.

Lemma write_all_cons path chunk chunks w :
  write_all path (chunk :: chunks) w
  = match utf8_encode chunk with
    | None => (w, inl UnicodeEncodeError)
    | Some bytes =>
        write_all path chunks
          (World (<[path := default [] (files w !! path) ++ bytes]> (files w))
             (console w))
    end.
Proof.
  cbn [write_all]. unfold bind, write. by destruct (utf8_encode chunk).
Qed.

Lemma write_all_ok path chunks : forall w old bytes,
  files w !! path = Some old ->
  utf8_encode (concat chunks) = Some bytes ->
  write_all path chunks w
  = (World (<[path := old ++ bytes]> (files w)) (console w), inr tt).
Proof.
  induction chunks as [|chunk chunks IH]; intros w old bytes Hold Henc.
  - injection Henc as <-. cbn. unfold ret.
    rewrite app_nil_r, insert_id by done. by rewrite world_eta.
  - cbn [concat] in Henc. rewrite utf8_encode_app in Henc.
    destruct (utf8_encode chunk) as [b1|] eqn:E1; [|done].
    destruct (utf8_encode (concat chunks)) as [b2|] eqn:E2; [|done].
    injection Henc as <-. rewrite write_all_cons, E1, Hold. cbn [default].
    rewrite (IH _ (old ++ b1) b2); cbn [files console].
    + by rewrite insert_insert_eq, app_assoc.
    + by rewrite lookup_insert_eq.
    + done.
Qed.

Lemma write_all_fail path chunks : forall w,
  utf8_encode (concat chunks) = None ->
  snd (write_all path chunks w) = inl UnicodeEncodeError.
Proof.
  induction chunks as [|chunk chunks IH]; intros w Henc; [done|].
  cbn [concat] in Henc. rewrite utf8_encode_app in Henc.
  rewrite write_all_cons.
  destruct (utf8_encode chunk) as [b1|] eqn:E1; [|done].
  destruct (utf8_encode (concat chunks)) as [b2|] eqn:E2; [done|].
  by apply IH.
Qed.

Lemma write_all_frame path chunks path' : forall w,
  (path' <> path -> files (fst (write_all path chunks w)) !! path'
                    = files w !! path')
  /\ (is_Some (files w !! path) ->
      is_Some (files (fst (write_all path chunks w)) !! path))
  /\ console (fst (write_all path chunks w)) = console w.
Proof.
  induction chunks as [|chunk chunks IH]; intros w; [done|].
  rewrite write_all_cons.
  destruct (utf8_encode chunk) as [b1|]; [|done].
  destruct (IH (World (<[path := default [] (files w !! path) ++ b1]> (files w))
                  (console w))) as (H1 & H2 & H3).
  cbn [files console] in *. repeat split.
  - intros Hne. rewrite H1 by done. by rewrite lookup_insert_ne.
  - intros _. apply H2. rewrite lookup_insert_eq. eauto.
  - done.
Qed.

Lemma dump_to_ok obj path w bytes :
  utf8_encode (dumps obj) = Some bytes ->
  dump_to obj path w
  = (World (<[path := bytes]> (files w)) (console w), inr tt).
Proof.
  intros Henc. unfold dump_to, bind, open_w.
  rewrite (write_all_ok _ _ _ [] bytes); cbn [files console].
  - by rewrite insert_insert_eq.
  - by rewrite lookup_insert_eq.
  - done.
Qed.

Lemma dump_to_fail obj path w :
  utf8_encode (dumps obj) = None ->
  snd (dump_to obj path w) = inl UnicodeEncodeError.
Proof.
  intros Henc. unfold dump_to, bind, open_w. by apply write_all_fail.
Qed.

Lemma dump_to_frame obj path w path' :
  (path' <> path -> files (fst (dump_to obj path w)) !! path'
                    = files w !! path')
  /\ is_Some (files (fst (dump_to obj path w)) !! path)
  /\ console (fst (dump_to obj path w)) = console w.
Proof.
  unfold dump_to, bind, open_w.
  destruct (write_all_frame path (iterencode obj 0) path'
              (World (<[path := []]> (files w)) (console w)))
    as (H1 & H2 & H3).
  cbn [files console] in *. repeat split.
  - intros Hne. rewrite H1 by done. by rewrite lookup_insert_ne.
  - apply H2. rewrite lookup_insert_eq. eauto.
  - done.
Qed.

(** What was dumped is loaded back. *)
Lemma load_dumped obj path fs out bytes :
  distinct_keys obj = true ->
  utf8_encode (dumps obj) = Some bytes ->
  load path (World (<[path := bytes]> fs) out)
  = (World (<[path := bytes]> fs) out, inr obj).
Proof.
  intros Hwf Henc. unfold load, bind, read_text, lift. cbn [files].
  rewrite lookup_insert_eq, (utf8_decode_encode _ _ Henc).
  rewrite universal_newlines_no_cr, loads_dumps; [done|done|].
  rewrite dumps_pretty. apply pretty_json_no_cr.
Qed.

(** ** What a statement leaves alone, and what its outcome depends on *)

Lemma keeps_bind p {A B} (m : prog A) (k : A -> prog B) :
  keeps p m -> (forall a, keeps p (k a)) -> keeps p (bind m k).
Proof.
  intros Hm Hk w. unfold bind. specialize (Hm w).
  destruct (m w) as [w1 [e|a]]; [done|].
  cbn [fst] in Hm. by rewrite Hk.
Qed.

Lemma input_only_bind {A B} (m : prog A) (k : A -> prog B) :
  input_only m -> keeps input_file m -> (forall a, input_only (k a)) ->
  input_only (bind m k).
Proof.
  intros Hm Hkeep Hk w w' Hw. unfold bind.
  pose proof (Hm w w' Hw) as Hs.
  pose proof (Hkeep w) as H1. pose proof (Hkeep w') as H2.
  destruct (m w) as [w1 [e|a]], (m w') as [w1' [e'|a']];
    cbn [fst snd] in *; try congruence.
  injection Hs as <-. apply Hk. congruence.
Qed.

Lemma keeps_ret p {A} (a : A) : keeps p (ret a).
Proof. done. Qed.

Lemma keeps_lift p {A} (r : result A) : keeps p (lift r).
Proof. done. Qed.

Lemma keeps_print p s : keeps p (print s).
Proof. done. Qed.

Lemma input_only_ret {A} (a : A) : input_only (ret a).
Proof. done. Qed.

Lemma input_only_lift {A} (r : result A) : input_only (lift r).
Proof. done. Qed.

Lemma input_only_print s : input_only (print s).
Proof. done. Qed.

Lemma load_world path w : fst (load path w) = w.
Proof.
  unfold load, bind, read_text, lift.
  destruct (files w !! path) as [bytes|]; [|done].
  by destruct (utf8_decode bytes).
Qed.

Lemma keeps_load p path : keeps p (load path).
Proof. intros w. by rewrite load_world. Qed.

Lemma input_only_load : input_only (load input_file).
Proof.
  intros w w' Hw. unfold load, bind, read_text, lift. rewrite <- Hw.
  destruct (files w !! input_file) as [bytes|]; [|done].
  by destruct (utf8_decode bytes).
Qed.

Lemma keeps_report_loop p errs : keeps p (report_loop errs).
Proof.
  induction errs as [|r errs IH]; [done|]. cbn [report_loop].
  apply keeps_bind; [apply keeps_lift|]. intros line.
  apply keeps_bind; [apply keeps_print|]. by intros _.
Qed.

Lemma keeps_report p errs : keeps p (report errs).
Proof.
  destruct errs as [|r errs]; [done|]. unfold report.
  apply keeps_bind; [apply keeps_print|]. intros _. apply keeps_report_loop.
Qed.

Lemma input_only_report_loop errs : input_only (report_loop errs).
Proof.
  induction errs as [|r errs IH]; [done|]. cbn [report_loop].
  apply input_only_bind; [apply input_only_lift|apply keeps_lift|].
  intros line.
  apply input_only_bind; [apply input_only_print|apply keeps_print|].
  by intros _.
Qed.

Lemma input_only_report errs : input_only (report errs).
Proof.
  destruct errs as [|r errs]; [done|]. unfold report.
  apply input_only_bind; [apply input_only_print|apply keeps_print|].
  intros _. apply input_only_report_loop.
Qed.

Lemma keeps_dump_to p obj path : p <> path -> keeps p (dump_to obj path).
Proof.
  intros Hne w. by destruct (dump_to_frame obj path w p) as (-> & _).
Qed.

Lemma dump_to_outcome obj path w :
  snd (dump_to obj path w)
  = match utf8_encode (dumps obj) with
    | Some _ => inr tt
    | None => inl UnicodeEncodeError
    end.
Proof.
  destruct (utf8_encode (dumps obj)) as [bytes|] eqn:E.
  - by rewrite (dump_to_ok _ _ _ _ E).
  - by apply dump_to_fail.
Qed.

Lemma input_only_dump_to obj path : input_only (dump_to obj path).
Proof. intros w w' _. by rewrite !dump_to_outcome. Qed.

Lemma keeps_clean p : p <> output_file -> keeps p clean.
Proof.
  intros Hne. unfold clean.
  repeat first
    [ apply keeps_print | apply keeps_load | apply keeps_lift
    | apply keeps_report | apply keeps_ret
    | by apply keeps_dump_to
    | apply keeps_bind; [|intros ?] ].
Qed.

Lemma input_only_clean : input_only clean.
Proof.
  unfold clean.
  repeat first
    [ apply input_only_print | apply input_only_load | apply input_only_lift
    | apply input_only_report | apply input_only_ret
    | apply input_only_dump_to
    | apply keeps_print | apply keeps_load | apply keeps_lift
    | apply keeps_report | by apply keeps_dump_to
    | apply input_only_bind; [| |intros ?] ].
Qed.

Lemma maybeBackup_present records path w :
  is_Some (files w !! path) -> maybeBackup records path w = (w, inr tt).
Proof.
  intros H. unfold maybeBackup, bind, path_exists.
  by rewrite bool_decide_eq_true_2.
Qed.

Lemma maybeBackup_creates records path w :
  is_Some (files (fst (maybeBackup records path w)) !! path).
Proof.
  unfold maybeBackup, bind, path_exists.
  destruct (bool_decide (is_Some (files w !! path))) eqn:E.
  - by apply bool_decide_eq_true in E.
  - destruct (dump_to_frame records path w path) as (_ & H & _).
    destruct (dump_to records path w) as [w1 [e|[]]]; [done|].
    by unfold print.
Qed.

Lemma bind_inr {A B} (m : prog A) (k : A -> prog B) w w' b :
  bind m k w = (w', inr b) ->
  exists w1 a, m w = (w1, inr a) /\ k a w1 = (w', inr b).
Proof.
  unfold bind. destruct (m w) as [w1 [e|a]]; [discriminate|eauto].
Qed.

Lemma print_inr s w w' u :
  print s w = (w', inr u) -> files w' = files w.
Proof. unfold print. by intros [= <-]. Qed.

Lemma lift_inr {A} (r : result A) w w' a :
  lift r w = (w', inr a) -> w' = w /\ r = inr a.
Proof. unfold lift. by intros [= <- ->]. Qed.

(** A run of lines 8-43 that ends normally: [records] is what was
    loaded, and the cleaned file holds the encoded text of the valid
    records. *)
Lemma clean_completed w w' records :
  clean w = (w', inr records) ->
  snd (load input_file w) = inr records
  /\ exists valid errored bytes,
       partition records = inr (valid, errored)
       /\ utf8_encode (dumps (VList valid)) = Some bytes
       /\ files w' !! output_file = Some bytes.
Proof.
  unfold clean. intros H.
  repeat match goal with
  | H : bind _ _ _ = (_, inr _) |- _ =>
      let Hm := fresh "Hm" in
      apply bind_inr in H as (? & ? & Hm & H); cbn beta zeta in H
  end.
  injection H as <- <-.
  repeat match goal with
  | H : print _ _ = (_, inr _) |- _ => apply print_inr in H
  | H : lift _ _ = (_, inr _) |- _ => apply lift_inr in H as [-> H]
  end.
  match goal with
  | H : load _ ?w1 = (?w2, inr ?r) |- _ =>
      assert (Hl : snd (load input_file w) = inr r);
      [ rewrite (input_only_load w w1) by congruence; by rewrite H
      | pose proof (load_world input_file w1) as Hw; rewrite H in Hw;
        cbn [fst] in Hw; subst w2; clear H ]
  end.
  split; [done|].
  match goal with
  | H : partition _ = inr ?s |- _ => destruct s as [valid errored]
  end.
  cbn [fst snd] in *.
  match goal with
  | H : writeCleaned _ _ ?w1 = (?w2, inr _) |- _ =>
      unfold writeCleaned in H;
      pose proof (dump_to_outcome (VList valid) output_file w1) as Ho;
      rewrite H in Ho; cbn [snd] in Ho;
      destruct (utf8_encode (dumps (VList valid))) as [bytes|] eqn:Henc;
      [|discriminate];
      rewrite (dump_to_ok _ _ _ _ Henc) in H; injection H as <-
  end.
  exists valid, errored, bytes. split; [done|]. split; [done|].
  repeat match goal with
  | H : files _ = _ |- _ => rewrite H; clear H
  end.
  cbn [files]. by rewrite lookup_insert_eq.
Qed.


Lemma escape_char_non_ascii c : 128 <= c -> escape_char c = [c].
Proof. intros H. unfold escape_char. zbool. done. Qed.

Lemma encode_basestring_non_ascii s :
  Forall (fun c => 128 <= c) s -> encode_basestring s = 34 :: s ++ [34].
Proof.
  intros H. unfold encode_basestring. do 2 f_equal.
  induction H as [|c s Hc _ IH]; [done|]. cbn.
  by rewrite escape_char_non_ascii, IH.
Qed.

(** The backup file is the same after a second run. *)
Lemma backup_same_after_second_run w :
  files (fst (clean_json (fst (clean_json w)))) !! backup_file
  = files (fst (clean_json w)) !! backup_file.
Proof.
  assert (Hinv : forall w c, files w !! backup_file = Some c ->
            files (fst (clean_json w)) !! backup_file = Some c).
  { intros w0 c Hc. unfold clean_json, bind.
    pose proof (keeps_clean backup_file ltac:(done) w0) as Hk.
    destruct (clean w0) as [w1 [e|records]]; cbn [fst] in *; [congruence|].
    rewrite maybeBackup_present; [cbn; congruence|].
    rewrite Hk, Hc. eauto. }
  destruct (files (fst (clean_json w)) !! backup_file) as [c|] eqn:E.
  { by apply Hinv. }
  unfold clean_json, bind in *.
  pose proof (keeps_clean backup_file ltac:(done) w) as Hk.
  pose proof (keeps_clean input_file ltac:(done) w) as Hi.
  destruct (clean w) as [w1 [e|records]] eqn:Ec; cbn [fst] in *.
  - pose proof (input_only_clean w1 w Hi) as Ho. rewrite Ec in Ho.
    pose proof (keeps_clean backup_file ltac:(done) w1) as Hk1.
    destruct (clean w1) as [w2 [e'|records']]; cbn [fst snd] in *;
      [congruence|discriminate].
  - pose proof (maybeBackup_creates records backup_file w1) as [c Hc].
    congruence.
Qed.

(** ** The claims *)

(** C1. For every Dataset [D], [partition] returns the records without
    the key [error] and the records with it, each a sub-sequence of [D]
    in [D]'s order; the two have no record in common, their lengths add
    up to the length of [D], every record of [D] is in exactly one of
    them, and together they hold the records of [D], each as many times
    as [D] does. *)
Theorem partition_stable_split (D : list pyval) :
  is_dataset D ->
  exists valid errored,
    partition (VList D) = inr (valid, errored)
    /\ valid = filter (fun r => has_error r = false) D
    /\ errored = filter (fun r => has_error r = true) D
    /\ valid `sublist_of` D
    /\ errored `sublist_of` D
    /\ (length valid + length errored = length D)%nat
    /\ (forall r, r ∈ valid -> r ∈ errored -> False)
    /\ (forall r, r ∈ D ->
          (r ∈ valid /\ r ∉ errored) \/ (r ∈ errored /\ r ∉ valid))
    /\ D ≡ₚ valid ++ errored.
Proof.
  intros HD. eexists _, _. split; [by apply partition_dataset|].
  split; [done|]. split; [done|].
  assert (Hperm : D ≡ₚ filter (fun r => has_error r = false) D
                       ++ filter (fun r => has_error r = true) D).
  { rewrite filter_has_error_complement.
    rewrite (Permutation_app_comm _ _).
    symmetry. apply filter_app_complement. }
  repeat split.
  - apply sublist_filter.
  - apply sublist_filter.
  - rewrite <- length_app. symmetry. by apply Permutation_length.
  - intros r [H1 _]%list_elem_of_filter [H2 _]%list_elem_of_filter. congruence.
  - intros r Hr. destruct (has_error r) eqn:E.
    + right. split; [by apply list_elem_of_filter|].
      intros [H1 _]%list_elem_of_filter. congruence.
    + left. split; [by apply list_elem_of_filter|].
      intros [H1 _]%list_elem_of_filter. congruence.
  - done.
Qed.

(** C2. In a Dataset, a Record lands in [errored] exactly when it has a
    key [error] and in [valid] exactly when it has none: the value under
    the key is not looked at (so [None] and the empty string count), nor
    is any other field. *)
Theorem partition_by_error_key (D : list pyval) :
  is_dataset D ->
  exists valid errored,
    partition (VList D) = inr (valid, errored)
    /\ (forall d, VDict d ∈ D ->
          (VDict d ∈ errored <-> is_Some (dict_get (lit "error") d))
          /\ (VDict d ∈ valid <-> dict_get (lit "error") d = None))
    /\ (forall d v, VDict d ∈ D -> dict_get (lit "error") d = Some v ->
          VDict d ∈ errored /\ VDict d ∉ valid)
    /\ (forall d, VDict d ∈ D -> dict_get (lit "error") d = None ->
          VDict d ∈ valid /\ VDict d ∉ errored).
Proof.
  intros HD. eexists _, _. split; [by apply partition_dataset|].
  assert (Hcls : forall d, VDict d ∈ D ->
     (VDict d ∈ filter (fun r => has_error r = true) D
        <-> is_Some (dict_get (lit "error") d))
     /\ (VDict d ∈ filter (fun r => has_error r = false) D
        <-> dict_get (lit "error") d = None)).
  { intros d Hd. rewrite !list_elem_of_filter. simpl.
    rewrite bool_decide_eq_true, bool_decide_eq_false.
    rewrite <- eq_None_not_Some. intuition congruence. }
  split; [done|]. split.
  - intros d v Hd Hv. destruct (Hcls d Hd) as [He Hv'].
    split; [apply He; eauto|]. rewrite Hv'. congruence.
  - intros d Hd Hv. destruct (Hcls d Hd) as [He Hv'].
    split; [by apply Hv'|]. rewrite He, Hv. intros [x Hx]. discriminate.
Qed.


(** C4, as amended. Provided no string of [valid] holds a surrogate:
    [writeCleaned] ends normally and leaves at the path, whatever was
    there, the UTF-8 encoding of [valid] pretty-printed as the
    specification says; running it again, or in any other world, gives
    the same bytes. The text is a JSON array; its items are indented by
    four spaces; a string of characters that are not ASCII is written as
    it is between its quotes. *)
Theorem writeCleaned_writes_pretty_utf8 (valid : list pyval) (path : string) :
  strings_all scalar_value (VList valid) = true ->
  exists bytes,
    utf8_encode (pretty_json 0 (VList valid)) = Some bytes
    /\ (forall w,
          writeCleaned valid path w
          = (World (<[path := bytes]> (files w)) (console w), inr tt))
    /\ (forall w,
          writeCleaned valid path (fst (writeCleaned valid path w))
          = (fst (writeCleaned valid path w), inr tt))
    /\ (valid = [] -> pretty_json 0 (VList valid) = [91; 93])
    /\ (valid <> [] ->
        pretty_json 0 (VList valid)
        = [91] ++ [10; 32; 32; 32; 32]
          ++ join ([44] ++ [10; 32; 32; 32; 32]) (map (pretty_json 1) valid)
          ++ [10] ++ [93])
    /\ (forall s, Forall (fun c => 128 <= c) s ->
          pretty_json 1 (VStr s) = [34] ++ s ++ [34]).
Proof.
  intros Hs. destruct (pretty_json_encodable 0 _ Hs) as [bytes Henc].
  exists bytes. split; [done|].
  assert (Hw : forall w, writeCleaned valid path w
     = (World (<[path := bytes]> (files w)) (console w), inr tt)).
  { intros w. unfold writeCleaned. apply dump_to_ok. by rewrite dumps_pretty. }
  split; [done|]. split.
  { intros w. rewrite !Hw. cbn [fst files console].
    by rewrite insert_insert_eq. }
  split; [by intros ->|]. split.
  { destruct valid as [|x valid]; [done|]. intros _. reflexivity. }
  intros s H. cbn. by apply encode_basestring_non_ascii.
Qed.

(** C5, as amended. Provided no string of [valid] holds a surrogate (and
    the keys of each dict are distinct, as in every Python dict): after
    [writeCleaned], loading the file yields [valid] itself, the same
    records in the same order. *)
Theorem cleaned_file_loads_back (valid : list pyval) (path : string) (w : world) :
  distinct_keys (VList valid) = true ->
  strings_all scalar_value (VList valid) = true ->
  snd (writeCleaned valid path w) = inr tt
  /\ load path (fst (writeCleaned valid path w))
     = (fst (writeCleaned valid path w), inr (VList valid)).
Proof.
  intros Hwf Hs. destruct (pretty_json_encodable 0 _ Hs) as [bytes Henc].
  rewrite <- dumps_pretty in Henc.
  unfold writeCleaned. rewrite (dump_to_ok _ _ _ _ Henc). cbn [fst snd].
  split; [done|]. by apply load_dumped.
Qed.

(** C6. When a file is at the path, [maybeBackup] does nothing at all.
    A backup file that exists before a run of the script has the same
    content after it, however the run ends; after a second run the
    backup file is what it was after the first. A run that ends normally
    while the backup file is in place has still written the cleaned file
    anew: it holds the encoded text of the valid records. *)
Theorem backup_written_once :
  (forall records path w,
     is_Some (files w !! path) -> maybeBackup records path w = (w, inr tt))
  /\ (forall w c,
        files w !! backup_file = Some c ->
        files (fst (clean_json w)) !! backup_file = Some c)
  /\ (forall w,
        files (fst (clean_json (fst (clean_json w)))) !! backup_file
        = files (fst (clean_json w)) !! backup_file)
  /\ (forall w,
        is_Some (files w !! backup_file) ->
        snd (clean_json w) = inr tt ->
        exists records valid errored bytes,
          snd (load input_file w) = inr records
          /\ partition records = inr (valid, errored)
          /\ utf8_encode (pretty_json 0 (VList valid)) = Some bytes
          /\ files (fst (clean_json w)) !! output_file = Some bytes).
Proof.
  split; [apply maybeBackup_present|].
  assert (Hinv : forall w c, files w !! backup_file = Some c ->
            files (fst (clean_json w)) !! backup_file = Some c).
  { intros w0 c Hc. unfold clean_json, bind.
    pose proof (keeps_clean backup_file ltac:(done) w0) as Hk.
    destruct (clean w0) as [w1 [e|records]]; cbn [fst] in *; [congruence|].
    rewrite maybeBackup_present; [cbn; congruence|].
    rewrite Hk, Hc. eauto. }
  split; [exact Hinv|]. split; [apply backup_same_after_second_run|].
  intros w Hb Hrun. unfold clean_json, bind in *.
  pose proof (keeps_clean backup_file ltac:(done) w) as Hk.
  destruct (clean w) as [w1 [e|records]] eqn:Ec; cbn [fst snd] in *;
    [discriminate|].
  destruct (clean_completed w w1 records Ec)
    as (Hl & valid & errored & bytes & Hp & Henc & Hout).
  rewrite maybeBackup_present by (by rewrite Hk). cbn [fst].
  exists records, valid, errored, bytes.
  by rewrite <- dumps_pretty.
Qed.

(** C7, as amended. Provided no string of [records] holds a surrogate
    and no file is at the path: [maybeBackup] writes there the UTF-8
    encoding of [records] pretty-printed as the specification says, the
    bytes [writeCleaned] writes for the same list, and prints that the
    backup was created. In a run of the script that reaches line 45 with
    no backup file, [records] is what was loaded, valid and errored
    records alike. *)
Theorem backup_holds_full_dataset :
  (forall records path w,
     files w !! path = None ->
     strings_all scalar_value records = true ->
     exists bytes,
       utf8_encode (pretty_json 0 records) = Some bytes
       /\ maybeBackup records path w
          = (World (<[path := bytes]> (files w))
               (console w ++ [lit "Backup created: " ++ lit path]),
             inr tt)
       /\ forall valid w', records = VList valid ->
            files (fst (writeCleaned valid path w')) !! path = Some bytes)
  /\ (forall w w' records,
        files w !! backup_file = None ->
        clean w = (w', inr records) ->
        strings_all scalar_value records = true ->
        exists bytes,
          snd (load input_file w) = inr records
          /\ utf8_encode (pretty_json 0 records) = Some bytes
          /\ files (fst (clean_json w)) !! backup_file = Some bytes
          /\ snd (clean_json w) = inr tt).
Proof.
  assert (Hop : forall records path w,
     files w !! path = None ->
     strings_all scalar_value records = true ->
     exists bytes,
       utf8_encode (pretty_json 0 records) = Some bytes
       /\ maybeBackup records path w
          = (World (<[path := bytes]> (files w))
               (console w ++ [lit "Backup created: " ++ lit path]),
             inr tt)
       /\ forall valid w', records = VList valid ->
            files (fst (writeCleaned valid path w')) !! path = Some bytes).
  { intros records path w Hnone Hs.
    destruct (pretty_json_encodable 0 _ Hs) as [bytes Henc].
    exists bytes. split; [done|]. rewrite <- dumps_pretty in Henc. split.
    - unfold maybeBackup, bind, path_exists.
      rewrite bool_decide_eq_false_2 by (rewrite Hnone; by intros [? ?]).
      by rewrite (dump_to_ok _ _ _ _ Henc).
    - intros valid w' ->. unfold writeCleaned.
      rewrite (dump_to_ok _ _ _ _ Henc). cbn [fst files].
      by rewrite lookup_insert_eq. }
  split; [exact Hop|].
  intros w w' records Hnone Hc Hs.
  destruct (clean_completed w w' records Hc) as (Hl & _).
  pose proof (keeps_clean backup_file ltac:(done) w) as Hk.
  rewrite Hc in Hk. cbn [fst] in Hk.
  destruct (Hop records backup_file w' ltac:(congruence) Hs)
    as (bytes & Henc & Hm & _).
  exists bytes. unfold clean_json, bind. rewrite Hc, Hm. cbn [fst snd files].
  by rewrite lookup_insert_eq.
Qed.



(** C10. Whatever [partition] puts in [errored] passed the test of line
    19. On such a record [record.get('error', default)] either raises
    (the record is not a dict and has no [get]) or returns the value
    stored under the key: the default is never returned. *)
Theorem unknown_error_fallback_unreachable
    (records : pyval) (valid errored : list pyval) :
  partition records = inr (valid, errored) ->
  forall r default, r ∈ errored ->
    (is_record r = false /\ py_get r (lit "error") default = inl AttributeError)
    \/ (exists d v, r = VDict d
          /\ dict_get (lit "error") d = Some v
          /\ py_get r (lit "error") default = inr v).
Proof.
  unfold partition, rbind. intros H r default Hr.
  destruct (py_iter records) as [e|items]; [discriminate|].
  destruct (partition_loop_errored _ _ _ _ _ H r Hr) as [Hin|Hc].
  { by apply elem_of_nil in Hin. }
  destruct r; try (left; split; reflexivity).
  right. simpl in Hc. injection Hc as Hc. apply bool_decide_eq_true in Hc.
  destruct Hc as [v Hv]. exists items0, v. simpl. by rewrite Hv.
Qed.

(** ** Beyond the claims: the script as a whole *)

(** ** The script as a function of what was loaded *)

Lemma write_all_run path chunks : forall w old,
  files w !! path = Some old ->
  write_all path chunks w
  = (World (<[path := old ++ encoded_prefix chunks]> (files w)) (console w),
     match utf8_encode (concat chunks) with
     | Some _ => inr tt
     | None => inl UnicodeEncodeError
     end).
Proof.
  induction chunks as [|chunk chunks IH]; intros w old Hold.
  - cbn. unfold ret. by rewrite app_nil_r, insert_id, world_eta.
  - rewrite write_all_cons, Hold. cbn [concat encoded_prefix default].
    rewrite utf8_encode_app.
    destruct (utf8_encode chunk) as [b1|].
    + rewrite (IH _ (old ++ b1)) by (cbn; by rewrite lookup_insert_eq).
      cbn [files console]. rewrite insert_insert_eq, app_assoc.
      by destruct (utf8_encode (concat chunks)).
    + by rewrite app_nil_r, insert_id, world_eta.
Qed.

Lemma dump_to_run obj path w :
  dump_to obj path w
  = (World (<[path := encoded_prefix (iterencode obj 0)]> (files w))
       (console w),
     dump_outcome obj).
Proof.
  unfold dump_to, bind, open_w.
  rewrite (write_all_run _ _ _ []) by (cbn; by rewrite lookup_insert_eq).
  cbn [files console app]. by rewrite insert_insert_eq.
Qed.

Lemma encoded_prefix_all chunks bytes :
  utf8_encode (concat chunks) = Some bytes -> encoded_prefix chunks = bytes.
Proof.
  revert bytes. induction chunks as [|chunk chunks IH]; intros bytes.
  - by intros [= <-].
  - cbn [concat encoded_prefix]. rewrite utf8_encode_app.
    destruct (utf8_encode chunk) as [b1|]; [|done].
    destruct (utf8_encode (concat chunks)) as [b2|]; [|done].
    intros [= <-]. by rewrite (IH b2).
Qed.

Lemma report_loop_run errored : forall w,
  report_loop errored w
  = (World (files w) (console w ++ fst (listing errored)),
     snd (listing errored)).
Proof.
  induction errored as [|r errored IH]; intros w.
  - cbn. unfold ret. by rewrite app_nil_r, world_eta.
  - cbn [report_loop listing]. unfold bind, lift, print.
    destruct (error_line r) as [e|line]; cbn [fst snd].
    + by rewrite app_nil_r, world_eta.
    + rewrite IH. cbn [files console]. by rewrite <- app_assoc.
Qed.

Lemma report_run errored w :
  report errored w
  = (World (files w) (console w ++ fst (report_output errored)),
     snd (report_output errored)).
Proof.
  destruct errored as [|r errored].
  - cbn. unfold ret. by rewrite app_nil_r, world_eta.
  - unfold report, report_output, bind, print. rewrite report_loop_run.
    cbn [files console fst snd]. by rewrite <- app_assoc.
Qed.

Lemma load_run path w : load path w = (w, snd (load path w)).
Proof.
  rewrite <- (load_world path w) at 2. by destruct (load path w).
Qed.

Lemma load_files_only path fs out out' :
  snd (load path (World fs out)) = snd (load path (World fs out')).
Proof.
  unfold load, bind, read_text, lift. cbn [files].
  destruct (fs !! path) as [bytes|]; [|done].
  by destruct (utf8_decode bytes).
Qed.

Lemma clean_run w :
  clean w
  = (World (written output_file (clean_effect (snd (load input_file w))).1.2
              (files w))
       (console w ++ (clean_effect (snd (load input_file w))).1.1),
     (clean_effect (snd (load input_file w))).2).
Proof.
  unfold clean, clean_effect.
  unfold bind at 1. unfold print at 1.
  unfold bind at 1. rewrite load_run. cbn [fst snd].
  rewrite (load_files_only input_file (files w) _ (console w)).
  rewrite world_eta.
  destruct (snd (load input_file w)) as [e|records]; [done|].
  unfold bind at 1. unfold lift at 1.
  destruct (py_len records) as [e|n]; [done|].
  unfold bind at 1. unfold print at 1. cbn [files console].
  unfold bind at 1. unfold lift at 1.
  destruct (partition records) as [e|[valid errored]];
    [cbn [written fst snd]; by rewrite <- ?app_assoc|].
  cbn [fst snd].
  unfold bind at 1. unfold print at 1. cbn [files console].
  unfold bind at 1. unfold print at 1. cbn [files console].
  unfold bind at 1. unfold print at 1. cbn [files console].
  unfold bind at 1. rewrite report_run. cbn [files console].
  destruct (snd (report_output errored)) as [e|[]];
    [cbn [written fst snd]; by rewrite <- ?app_assoc|].
  unfold bind at 1. unfold print at 1. cbn [files console].
  unfold bind at 1. unfold writeCleaned. rewrite dump_to_run.
  cbn [files console].
  destruct (dump_outcome (VList valid)) as [e|[]];
    [cbn [written fst snd]; by rewrite <- ?app_assoc|].
  unfold bind, print, ret. cbn [files console written fst snd].
  by rewrite <- ?app_assoc.
Qed.

Lemma maybeBackup_run records path w :
  maybeBackup records path w
  = if bool_decide (is_Some (files w !! path)) then (w, inr tt)
    else (World (<[path := encoded_prefix (iterencode records 0)]> (files w))
            (console w
             ++ match dump_outcome records with
                | inr _ => [lit "Backup created: " ++ lit path]
                | inl _ => []
                end),
          dump_outcome records).
Proof.
  unfold maybeBackup, bind, path_exists.
  destruct (bool_decide (is_Some (files w !! path))); [done|].
  rewrite dump_to_run. destruct (dump_outcome records) as [e|[]].
  - by rewrite app_nil_r.
  - done.
Qed.

Lemma clean_json_run w :
  clean_json w
  = match (clean_effect (snd (load input_file w))).2 with
    | inl e =>
        (World (written output_file
                  (clean_effect (snd (load input_file w))).1.2 (files w))
           (console w ++ (clean_effect (snd (load input_file w))).1.1),
         inl e)
    | inr records =>
        maybeBackup records backup_file
          (World (written output_file
                    (clean_effect (snd (load input_file w))).1.2 (files w))
             (console w ++ (clean_effect (snd (load input_file w))).1.1))
    end.
Proof.
  unfold clean_json, bind. rewrite clean_run.
  by destruct (clean_effect (snd (load input_file w))).2.
Qed.

Lemma dump_outcome_error obj e :
  dump_outcome obj = inl e -> e = UnicodeEncodeError.
Proof.
  unfold dump_outcome. destruct (utf8_encode (dumps obj)); [done|].
  by intros [= <-].
Qed.

(** Before line 39 nothing is written. *)
Lemma clean_effect_early loaded e :
  (clean_effect loaded).2 = inl e -> e <> UnicodeEncodeError ->
  (clean_effect loaded).1.2 = None.
Proof.
  unfold clean_effect. destruct loaded as [e0|records]; [done|].
  destruct (py_len records) as [e0|n]; [done|].
  destruct (partition records) as [e0|[valid errored]]; [done|].
  destruct (snd (report_output errored)) as [e0|[]]; [done|].
  destruct (dump_outcome (VList valid)) as [e0|[]] eqn:E; [|done].
  apply dump_outcome_error in E as ->. cbn. congruence.
Qed.

(** What lines 8-43 did when they ended normally. *)
Lemma clean_effect_done loaded records :
  (clean_effect loaded).2 = inr records ->
  loaded = inr records
  /\ exists n valid errored,
       py_len records = inr n
       /\ partition records = inr (valid, errored)
       /\ snd (report_output errored) = inr tt
       /\ dump_outcome (VList valid) = inr tt
       /\ (clean_effect loaded).1.2
          = Some (encoded_prefix (iterencode (VList valid) 0))
       /\ (clean_effect loaded).1.1
          = [lit " Loading " ++ lit input_file ++ lit "...";
             lit "Total records before cleaning: " ++ int_repr n;
             10 :: lit " Statistics:";
             lit " Valid records: " ++ len_repr valid;
             lit " Records with errors: " ++ len_repr errored]
            ++ fst (report_output errored)
            ++ [10 :: lit "Saving cleaned data to " ++ lit output_file
                   ++ lit "...";
                lit "Cleaned file saved!";
                lit "Total records in cleaned file: " ++ len_repr valid].
Proof.
  unfold clean_effect. destruct loaded as [e0|records0]; [done|].
  destruct (py_len records0) as [e0|n] eqn:El; [done|].
  destruct (partition records0) as [e0|[valid errored]] eqn:Ep; [done|].
  destruct (snd (report_output errored)) as [e0|[]] eqn:Er; [done|].
  destruct (dump_outcome (VList valid)) as [e0|[]] eqn:Ed; [done|].
  cbn [fst snd]. intros [= <-]. split; [done|].
  exists n, valid, errored. repeat split; try done.
  by rewrite <- !app_assoc.
Qed.

Lemma input_kept_by_written o (fs : gmap string (list Z)) p :
  p <> output_file -> written output_file o fs !! p = fs !! p.
Proof.
  intros Hne. destruct o as [b|]; [|done]. cbn.
  by rewrite lookup_insert_ne.
Qed.

Lemma written_twice p o (fs : gmap string (list Z)) :
  written p o (written p o fs) = written p o fs.
Proof. destruct o as [b|]; [|done]. cbn. by rewrite insert_insert_eq. Qed.

Lemma written_is_Some p o (fs : gmap string (list Z)) q :
  is_Some (fs !! q) -> is_Some (written p o fs !! q).
Proof.
  intros H. destruct o as [b|]; [|done]. cbn.
  destruct (decide (p = q)) as [->|Hne].
  - rewrite lookup_insert_eq. eauto.
  - by rewrite lookup_insert_ne.
Qed.

(** ** More of the script: failures, files and reruns *)

(** X1. The script catches nothing: when [json.load] or [open] raises
    on the input file, the run ends with that exception, having printed
    the first line only and changed no file. *)
Theorem load_failure_ends_the_run (w : world) (e : exn) :
  snd (load input_file w) = inl e ->
  clean_json w
  = (World (files w)
       (console w ++ [lit " Loading " ++ lit input_file ++ lit "..."]),
     inl e).
Proof. intros H. by rewrite clean_json_run, H. Qed.

(** X2. A document that is a number, a boolean or [null] is loaded, and
    [len(records)] on line 12 raises [TypeError]: the run ends there,
    having printed the first line only and changed no file. *)
Theorem scalar_document_raises_TypeError (w : world) (records : pyval) :
  snd (load input_file w) = inr records ->
  supports_in records = false ->
  clean_json w
  = (World (files w)
       (console w ++ [lit " Loading " ++ lit input_file ++ lit "..."]),
     inl TypeError).
Proof.
  intros H Hs. rewrite clean_json_run, H.
  by destruct records.
Qed.

(** X3. Every exception but [UnicodeEncodeError] is raised before line
    39: a run that ends with [FileNotFoundError], [UnicodeDecodeError],
    [JSONDecodeError], [TypeError] or [AttributeError] has created and
    changed no file. *)
Theorem failure_before_writing_changes_no_file (w : world) (e : exn) :
  snd (clean_json w) = inl e ->
  e <> UnicodeEncodeError ->
  files (fst (clean_json w)) = files w.
Proof.
  rewrite clean_json_run. intros H Hne.
  destruct (clean_effect (snd (load input_file w))).2 as [e0|records] eqn:E.
  - cbn [fst snd files] in *. injection H as ->.
    by rewrite (clean_effect_early _ _ E Hne).
  - rewrite maybeBackup_run in H.
    destruct (bool_decide _); [done|]. cbn [snd] in H.
    by apply dump_outcome_error in H.
Qed.

(** X4. The script writes to two paths only: every other file, the input
    file among them, is after the run what it was before, however the
    run ends. *)
Theorem script_touches_two_files_only (w : world) (p : string) :
  p <> output_file -> p <> backup_file ->
  files (fst (clean_json w)) !! p = files w !! p.
Proof.
  intros Ho Hb. rewrite clean_json_run.
  destruct (clean_effect (snd (load input_file w))).2 as [e0|records].
  - cbn [fst files]. by apply input_kept_by_written.
  - rewrite maybeBackup_run. destruct (bool_decide _); cbn [fst files].
    + by apply input_kept_by_written.
    + rewrite lookup_insert_ne by done. by apply input_kept_by_written.
Qed.

(** X5. The script deletes nothing: a path that holds a file before the
    run holds one after it. *)
Theorem script_deletes_no_file (w : world) (p : string) :
  is_Some (files w !! p) -> is_Some (files (fst (clean_json w)) !! p).
Proof.
  intros H. rewrite clean_json_run.
  destruct (clean_effect (snd (load input_file w))).2 as [e0|records].
  - cbn [fst files]. by apply written_is_Some.
  - rewrite maybeBackup_run. destruct (bool_decide _); cbn [fst files].
    + by apply written_is_Some.
    + destruct (decide (backup_file = p)) as [->|Hne].
      * rewrite lookup_insert_eq. eauto.
      * rewrite lookup_insert_ne by done. by apply written_is_Some.
Qed.

Lemma clean_json_keeps w p :
  p <> output_file -> p <> backup_file ->
  files (fst (clean_json w)) !! p = files w !! p.
Proof.
  intros Ho Hb. rewrite clean_json_run.
  destruct (clean_effect (snd (load input_file w))).2 as [e0|records].
  - cbn [fst files]. by apply input_kept_by_written.
  - rewrite maybeBackup_run. destruct (bool_decide _); cbn [fst files].
    + by apply input_kept_by_written.
    + rewrite lookup_insert_ne by done. by apply input_kept_by_written.
Qed.

Lemma load_after_clean_json w :
  snd (load input_file (fst (clean_json w))) = snd (load input_file w).
Proof. apply input_only_load. by apply clean_json_keeps. Qed.

(** The files after a run. *)
Lemma clean_json_files w :
  files (fst (clean_json w))
  = match (clean_effect (snd (load input_file w))).2 with
    | inl _ =>
        written output_file (clean_effect (snd (load input_file w))).1.2
          (files w)
    | inr records =>
        if bool_decide (is_Some (files w !! backup_file))
        then written output_file
               (clean_effect (snd (load input_file w))).1.2 (files w)
        else <[backup_file := encoded_prefix (iterencode records 0)]>
               (written output_file
                  (clean_effect (snd (load input_file w))).1.2 (files w))
    end.
Proof.
  rewrite clean_json_run.
  destruct (clean_effect (snd (load input_file w))).2 as [e0|records];
    [done|].
  rewrite maybeBackup_run. cbn [files].
  rewrite (input_kept_by_written _ _ backup_file) by done.
  by destruct (bool_decide _).
Qed.

(** How a run ends. *)
Lemma clean_json_outcome w :
  snd (clean_json w)
  = match (clean_effect (snd (load input_file w))).2 with
    | inl e => inl e
    | inr records =>
        if bool_decide (is_Some (files w !! backup_file)) then inr tt
        else dump_outcome records
    end.
Proof.
  rewrite clean_json_run.
  destruct (clean_effect (snd (load input_file w))).2 as [e0|records];
    [done|].
  rewrite maybeBackup_run. cbn [files].
  rewrite (input_kept_by_written _ _ backup_file) by done.
  by destruct (bool_decide _).
Qed.

Lemma written_insert_other o (fs : gmap string (list Z)) b :
  written output_file o (<[backup_file := b]> fs)
  = <[backup_file := b]> (written output_file o fs).
Proof.
  destruct o as [c|]; [|done]. cbn. by apply insert_insert_ne.
Qed.

(** X6. Running the script a second time changes no file: whatever the
    first run left (cleaned file, backup, whole or cut short by an
    exception) the second run leaves the same. *)
Theorem second_run_same_files (w : world) :
  files (fst (clean_json (fst (clean_json w)))) = files (fst (clean_json w)).
Proof.
  rewrite (clean_json_files (fst (clean_json w))), load_after_clean_json.
  rewrite !(clean_json_files w).
  destruct (clean_effect (snd (load input_file w))) as [[lines o] [e|records]];
    cbn [fst snd].
  - apply written_twice.
  - destruct (bool_decide (is_Some (files w !! backup_file))) eqn:Eb.
    + rewrite (input_kept_by_written _ _ backup_file) by done.
      rewrite Eb. apply written_twice.
    + rewrite lookup_insert_eq, bool_decide_eq_true_2 by eauto.
      by rewrite written_insert_other, written_twice.
Qed.

(** X7. Once a run has got past line 43, the next run ends normally,
    even when the first one died while it wrote the backup: the file it
    left is taken for a backup. *)
Theorem rerun_ends_normally (w : world) (records : pyval) :
  snd (clean w) = inr records ->
  snd (clean_json (fst (clean_json w))) = inr tt.
Proof.
  rewrite clean_run. cbn [snd]. intros Hc.
  rewrite clean_json_outcome, load_after_clean_json, Hc.
  rewrite clean_json_files, Hc.
  rewrite bool_decide_eq_true_2; [done|].
  destruct (bool_decide (is_Some (files w !! backup_file))) eqn:Eb.
  - apply bool_decide_eq_true in Eb. by apply written_is_Some.
  - rewrite lookup_insert_eq. eauto.
Qed.

Lemma listing_ok errored :
  snd (listing errored) = inr tt ->
  fst (listing errored) = line_text <$> errored.
Proof.
  induction errored as [|r errored IH]; [done|].
  cbn [listing fmap list_fmap]. unfold line_text at 1.
  destruct (error_line r) as [e|line]; [done|].
  cbn [fst snd]. intros H. by rewrite IH.
Qed.

Lemma report_output_ok errored :
  snd (report_output errored) = inr tt ->
  fst (report_output errored)
  = match errored with
    | [] => []
    | _ :: _ => (10 :: lit "ASINs with errors:") :: (line_text <$> errored)
    end.
Proof.
  destruct errored as [|r errored]; [done|].
  unfold report_output. cbn [fst snd]. intros H. by rewrite listing_ok.
Qed.

Lemma partition_loop_lengths items : forall valid errored valid' errored',
  partition_loop items valid errored = inr (valid', errored') ->
  (length valid' + length errored'
   = length valid + length errored + length items)%nat.
Proof.
  induction items as [|x items IH]; intros valid errored valid' errored' H.
  - simpl in H. injection H as <- <-. simpl. lia.
  - simpl in H. destruct (py_contains (lit "error") x) as [e|[|]];
      [discriminate| |]; apply IH in H; rewrite length_app in H;
      simpl in *; lia.
Qed.

Lemma partition_lengths records valid errored :
  partition records = inr (valid, errored) ->
  py_len records = inr (Z.of_nat (length valid + length errored)).
Proof.
  unfold partition, rbind. intros H.
  destruct (py_iter records) as [e|items] eqn:Ei; [discriminate|].
  apply partition_loop_lengths in H. simpl in H. rewrite H.
  destruct records; try discriminate; injection Ei as <-; cbn;
    by rewrite ?length_fmap.
Qed.

(** X8. What a run that ends normally has printed: the line of line 8,
    the number of records loaded, which is the number of valid records
    plus the number of errored ones, the three lines of statistics, the
    listing when there is an errored record, the three lines around the
    writing of the cleaned file, and the line of the backup when there
    was no backup file. *)
Theorem console_of_a_normal_run (w : world) :
  snd (clean_json w) = inr tt ->
  exists records valid errored,
    snd (load input_file w) = inr records
    /\ partition records = inr (valid, errored)
    /\ py_len records = inr (Z.of_nat (length valid + length errored))
    /\ console (fst (clean_json w))
       = console w
         ++ [lit " Loading amazon_results.json...";
             lit "Total records before cleaning: "
             ++ int_repr (Z.of_nat (length valid + length errored));
             10 :: lit " Statistics:";
             lit " Valid records: " ++ int_repr (Z.of_nat (length valid));
             lit " Records with errors: "
             ++ int_repr (Z.of_nat (length errored))]
         ++ match errored with
            | [] => []
            | _ :: _ =>
                (10 :: lit "ASINs with errors:") :: (line_text <$> errored)
            end
         ++ [10 :: lit "Saving cleaned data to amazon_results_cleaned.json...";
             lit "Cleaned file saved!";
             lit "Total records in cleaned file: "
             ++ int_repr (Z.of_nat (length valid))]
         ++ (if bool_decide (is_Some (files w !! backup_file)) then []
             else [lit "Backup created: amazon_results_new_backup.json"]).
Proof.
  rewrite clean_json_run. intros H.
  destruct (clean_effect (snd (load input_file w))).2 as [e|records] eqn:E;
    [discriminate|].
  destruct (clean_effect_done _ _ E)
    as (Hl & n & valid & errored & Hn & Hp & Hr & Hd & _ & Hlines).
  exists records, valid, errored. split; [done|]. split; [done|].
  pose proof (partition_lengths _ _ _ Hp) as Hlen. split; [done|].
  rewrite Hlen in Hn. injection Hn as <-.
  rewrite maybeBackup_run in *. cbn [files] in *.
  rewrite (input_kept_by_written _ _ backup_file) in * by done.
  rewrite Hlines, (report_output_ok _ Hr).
  destruct (bool_decide (is_Some (files w !! backup_file))); cbn [fst console].
  - by rewrite app_nil_r.
  - cbn [snd] in H. rewrite H. by rewrite <- !app_assoc.
Qed.

(** X9. The cleaned file depends on the value loaded, not on the text
    it was loaded from: two runs that end normally on inputs that hold
    the same value leave the same bytes in the cleaned file. *)
Theorem same_value_same_cleaned_file (w w' : world) :
  snd (load input_file w) = snd (load input_file w') ->
  snd (clean_json w) = inr tt ->
  snd (clean_json w') = inr tt ->
  files (fst (clean_json w)) !! output_file
  = files (fst (clean_json w')) !! output_file.
Proof.
  intros Hl H H'. rewrite clean_json_outcome in H, H'.
  rewrite !clean_json_files. rewrite <- Hl in *.
  destruct (clean_effect (snd (load input_file w))).2 as [e|records] eqn:E;
    [discriminate|].
  destruct (clean_effect_done _ _ E) as (_ & n & valid & errored & Hc).
  destruct Hc as (_ & _ & _ & _ & -> & _). cbn [written].
  do 2 destruct (bool_decide _);
    rewrite ?(lookup_insert_ne _ backup_file) by done;
    by rewrite !lookup_insert_eq.
Qed.

(** ** More of the partition and of the report *)

Lemma partition_loop_any l : forall valid errored,
  partition_loop l valid errored
  = if forallb supports_in l
    then inr (valid ++ filter (fun r => mentions_error r = false) l,
              errored ++ filter (fun r => mentions_error r = true) l)
    else inl TypeError.
Proof.
  induction l as [|x l IH]; intros valid errored.
  - cbn. by rewrite !app_nil_r.
  - cbn [partition_loop forallb]. destruct (supports_in x) eqn:Es.
    + assert (Hc : py_contains (lit "error") x = inr (mentions_error x)).
      { unfold mentions_error. by destruct x. }
      rewrite Hc, !filter_cons. cbn [andb].
      destruct (mentions_error x) eqn:Em; rewrite IH;
        destruct (forallb supports_in l); try done;
        repeat case_decide; try congruence; by rewrite <- ?app_assoc.
    + assert (Hc : py_contains (lit "error") x = inl TypeError)
        by (by destruct x).
      by rewrite Hc.
Qed.

(** X10. On any list, [partition] raises [TypeError] when an item is a
    number, a boolean or [None], wherever it is in the list; otherwise
    it returns the items on which the test of line 19 is false and
    those on which it is true, each in the order of the list. A string
    that contains [error] and a list that has the item ['error'] are
    errored as a dict with the key is. *)
Theorem partition_any_list (l : list pyval) :
  partition (VList l)
  = if forallb supports_in l
    then inr (filter (fun r => mentions_error r = false) l,
              filter (fun r => mentions_error r = true) l)
    else inl TypeError.
Proof. unfold partition, py_iter, rbind. by rewrite partition_loop_any. Qed.



(** X12. An error of 80 characters or fewer is printed whole, and the
    three dots follow it all the same. *)
Theorem short_error_is_printed_whole
    (d : list (pystr * pyval)) (e : pystr) :
  dict_get (lit "error") d = Some (VStr e) ->
  (length e <= 80)%nat ->
  error_line (VDict d)
  = inr (lit "   " ++ bullet ++ lit " "
         ++ match dict_get (lit "asin") d with
            | Some asin => py_str asin
            | None => lit "Unknown"
            end
         ++ lit ": " ++ e ++ lit "...").
Proof.
  intros He Hlen. rewrite (error_line_text (VDict d) e).
  - unfold listing_line. by rewrite take_ge.
  - unfold error_text. by rewrite He.
Qed.

(** X13. For a dict without the key [error], lines 33-35 print
    [Unknown error] in the place of the error. *)
Theorem missing_error_key_prints_default (d : list (pystr * pyval)) :
  dict_get (lit "error") d = None ->
  error_line (VDict d)
  = inr (lit "   " ++ bullet ++ lit " "
         ++ match dict_get (lit "asin") d with
            | Some asin => py_str asin
            | None => lit "Unknown"
            end
         ++ lit ": Unknown error...").
Proof.
  intros He. unfold error_line, py_get. rewrite He.
  destruct (dict_get (lit "asin") d); cbn [rbind py_slice_to py_str];
    by rewrite take_ge by (cbn; lia).
Qed.

(** ** More of the files: what is written and what loads back *)

Lemma encoded_prefix_first_bad chunks :
  utf8_encode (concat chunks) = None ->
  exists k chunk,
    chunks !! k = Some chunk
    /\ utf8_encode chunk = None
    /\ utf8_encode (concat (take k chunks)) = Some (encoded_prefix chunks).
Proof.
  induction chunks as [|c chunks IH]; [done|].
  cbn [concat encoded_prefix]. rewrite utf8_encode_app.
  destruct (utf8_encode c) as [b1|] eqn:Ec.
  - destruct (utf8_encode (concat chunks)) as [b2|]; [done|].
    intros _. destruct (IH eq_refl) as (k & chunk & Hk & Hbad & Hpre).
    exists (S k), chunk. split; [done|]. split; [done|].
    cbn [take concat]. by rewrite utf8_encode_app, Ec, Hpre.
  - intros _. exists 0%nat, c. by repeat split.
Qed.

(** X14. When [json.dump] raises, the file is not what it was nor
    empty: it holds the encoding of the chunks the encoder yielded
    before the first chunk that cannot be encoded, and no more. The
    exception is [UnicodeEncodeError]. *)
Theorem failed_dump_leaves_a_prefix
    (obj : pyval) (path : string) (w : world) (e : exn) :
  snd (dump_to obj path w) = inl e ->
  e = UnicodeEncodeError
  /\ exists k chunk bytes,
       iterencode obj 0 !! k = Some chunk
       /\ utf8_encode chunk = None
       /\ utf8_encode (concat (take k (iterencode obj 0))) = Some bytes
       /\ fst (dump_to obj path w)
          = World (<[path := bytes]> (files w)) (console w).
Proof.
  rewrite dump_to_run. cbn [fst snd]. unfold dump_outcome, dumps.
  destruct (utf8_encode (concat (iterencode obj 0))) eqn:E; [done|].
  intros [= <-]. split; [done|].
  destruct (encoded_prefix_first_bad _ E) as (k & chunk & Hk & Hbad & Hpre).
  by exists k, chunk, (encoded_prefix (iterencode obj 0)).
Qed.

Lemma snd_load_loads path w v :
  snd (load path w) = inr v -> exists text, loads text = inr v.
Proof.
  unfold load, bind, read_text, lift.
  destruct (files w !! path) as [bytes|]; [|done].
  destruct (utf8_decode bytes) as [text|]; [|done]. cbn. eauto.
Qed.

Lemma load_written path w bytes obj :
  files w !! path = Some bytes ->
  utf8_encode (dumps obj) = Some bytes ->
  distinct_keys obj = true ->
  snd (load path w) = inr obj.
Proof.
  intros Hf Henc Hwf.
  rewrite <- (world_eta w), <- (insert_id (files w) path bytes Hf).
  by rewrite (load_dumped obj path _ _ bytes Hwf Henc).
Qed.

Lemma dump_outcome_ok obj :
  dump_outcome obj = inr tt ->
  utf8_encode (dumps obj) = Some (encoded_prefix (iterencode obj 0)).
Proof.
  unfold dump_outcome. destruct (utf8_encode (dumps obj)) as [bytes|] eqn:E;
    [|done].
  intros _. by rewrite (encoded_prefix_all _ bytes E).
Qed.

(** X15. No dict that [json.load] builds has the same key twice,
    whatever the text repeats. *)
Theorem load_builds_distinct_keys (path : string) (w : world) (v : pyval) :
  snd (load path w) = inr v -> distinct_keys v = true.
Proof.
  intros [text Ht]%snd_load_loads. by apply loads_distinct_keys in Ht.
Qed.

(** X16. After a run that got past line 43 the cleaned file loads, and
    what it holds is the list of the valid records of the run, in their
    order, whether or not the backup step then failed. *)
Theorem cleaned_file_of_a_run_loads_back (w : world) (records : pyval) :
  snd (clean w) = inr records ->
  exists valid errored,
    partition records = inr (valid, errored)
    /\ snd (load output_file (fst (clean_json w))) = inr (VList valid).
Proof.
  rewrite clean_run. cbn [snd]. intros E.
  destruct (clean_effect_done _ _ E)
    as (Hl & n & valid & errored & Hn & Hp & Hr & Hd & Ho & _).
  exists valid, errored. split; [done|].
  apply snd_load_loads in Hl as [text Ht]. apply loads_distinct_keys in Ht.
  destruct (partition_distinct_keys _ _ _ Ht Hp) as [Hv _].
  apply (load_written _ _ (encoded_prefix (iterencode (VList valid) 0)));
    [|by apply dump_outcome_ok|done].
  rewrite clean_json_files, E, Ho. cbn [written].
  destruct (bool_decide _);
    rewrite ?(lookup_insert_ne _ backup_file) by done;
    by rewrite lookup_insert_eq.
Qed.

(** X17. After a run that ends normally and found no backup file, the
    backup file loads, and what it holds is the value the run loaded:
    the same value, printed anew, not the bytes of the input file. *)
Theorem backup_of_a_run_loads_back (w : world) :
  snd (clean_json w) = inr tt ->
  files w !! backup_file = None ->
  exists records,
    snd (load input_file w) = inr records
    /\ snd (load backup_file (fst (clean_json w))) = inr records.
Proof.
  intros H Hb. rewrite clean_json_outcome in H.
  destruct (clean_effect (snd (load input_file w))).2 as [e|records] eqn:E;
    [discriminate|].
  rewrite bool_decide_eq_false_2 in H by (rewrite Hb; by intros [? ?]).
  destruct (clean_effect_done _ _ E) as (Hl & _).
  exists records. split; [done|].
  apply (load_written _ _ (encoded_prefix (iterencode records 0)));
    [|by apply dump_outcome_ok|].
  - rewrite clean_json_files, E.
    rewrite bool_decide_eq_false_2 by (rewrite Hb; by intros [? ?]).
    by rewrite lookup_insert_eq.
  - apply snd_load_loads in Hl as [text Ht]. by apply loads_distinct_keys in Ht.
Qed.

(** X18. An input file that starts with the UTF-8 byte order mark is
    never loaded: the run ends with [UnicodeDecodeError] or
    [JSONDecodeError] and changes no file. *)
Theorem byte_order_mark_is_refused (w : world) (rest : list Z) :
  files w !! input_file = Some (0xEF :: 0xBB :: 0xBF :: rest) ->
  (snd (clean_json w) = inl UnicodeDecodeError
   \/ snd (clean_json w) = inl JSONDecodeError)
  /\ files (fst (clean_json w)) = files w.
Proof.
  intros Hf.
  assert (Hl : snd (load input_file w) = inl UnicodeDecodeError
               \/ snd (load input_file w) = inl JSONDecodeError).
  { unfold load, bind, read_text, lift. rewrite Hf.
    rewrite utf8_decode_cons. cbn.
    destruct (utf8_decode rest) as [text|]; cbn; [right|by left].
    done. }
  rewrite clean_json_run.
  destruct Hl as [-> | ->]; cbn; auto.
Qed.

(** X19. On the empty list the run ends normally: it prints zero three
    times and no listing, leaves [[]] in the cleaned file and, when
    there was no backup file, in the backup file. *)
Theorem empty_dataset_run (w : world) :
  snd (load input_file w) = inr (VList []) ->
  clean_json w
  = (World
       (if bool_decide (is_Some (files w !! backup_file))
        then <[output_file := [91; 93]]> (files w)
        else <[backup_file := [91; 93]]>
               (<[output_file := [91; 93]]> (files w)))
       (console w
        ++ [lit " Loading amazon_results.json...";
            lit "Total records before cleaning: 0";
            10 :: lit " Statistics:";
            lit " Valid records: 0";
            lit " Records with errors: 0";
            10 :: lit "Saving cleaned data to amazon_results_cleaned.json...";
            lit "Cleaned file saved!";
            lit "Total records in cleaned file: 0"]
        ++ (if bool_decide (is_Some (files w !! backup_file)) then []
            else [lit "Backup created: amazon_results_new_backup.json"])),
     inr tt).
Proof.
  intros H. rewrite clean_json_run, H.
  change (clean_effect (inr (VList [])))
    with ([lit " Loading amazon_results.json...";
           lit "Total records before cleaning: 0";
           10 :: lit " Statistics:";
           lit " Valid records: 0";
           lit " Records with errors: 0";
           10 :: lit "Saving cleaned data to amazon_results_cleaned.json...";
           lit "Cleaned file saved!";
           lit "Total records in cleaned file: 0"],
          Some [91; 93], inr (VList []) : result pyval).
  cbn [fst snd written]. rewrite maybeBackup_run. cbn [files console].
  change (encoded_prefix (iterencode (VList []) 0)) with [91; 93].
  change (dump_outcome (VList [])) with (inr tt : result unit).
  rewrite lookup_insert_ne by done.
  destruct (bool_decide (is_Some (files w !! backup_file))).
  - by rewrite app_nil_r.
  - by rewrite <- app_assoc.
Qed.

(** X20. When the first errored record is not a dict (a string that
    contains [error], a list with the item ['error'], or a key of a
    document that is an object) line 33 raises [AttributeError]: the
    run ends there and no file is written. *)
Theorem non_dict_errored_record_raises
    (w : world) (records r : pyval) (valid errored : list pyval) :
  snd (load input_file w) = inr records ->
  partition records = inr (valid, r :: errored) ->
  is_record r = false ->
  snd (clean_json w) = inl AttributeError
  /\ files (fst (clean_json w)) = files w.
Proof.
  intros Hl Hp Hr.
  assert (He : clean_effect (inr records)
               = ((clean_effect (inr records)).1.1, None, inl AttributeError)).
  { unfold clean_effect. rewrite (partition_lengths _ _ _ Hp), Hp.
    assert (Hrep : snd (report_output (r :: errored)) = inl AttributeError).
    { unfold report_output. cbn [snd listing].
      by destruct r. }
    by rewrite Hrep. }
  rewrite clean_json_run, Hl, He. done.
Qed.

Lemma partition_loop_valid items : forall valid errored valid' errored',
  partition_loop items valid errored = inr (valid', errored') ->
  forall r, r ∈ valid' ->
    r ∈ valid \/ py_contains (lit "error") r = inr false.
Proof.
  induction items as [|x items IH]; intros valid errored valid' errored' H r Hr.
  - simpl in H. left. congruence.
  - simpl in H. destruct (py_contains (lit "error") x) as [e|[|]] eqn:E;
      [discriminate| |].
    + destruct (IH _ _ _ _ H r Hr) as [Hin|Hc]; [by left|by right].
    + destruct (IH _ _ _ _ H r Hr) as [Hin|Hc]; [|by right].
      apply elem_of_app in Hin as [Hin|Hin]; [by left|].
      apply list_elem_of_singleton in Hin as ->. by right.
Qed.

Lemma partition_loop_all_valid l : forall valid errored,
  Forall (fun r => py_contains (lit "error") r = inr false) l ->
  partition_loop l valid errored = inr (valid ++ l, errored).
Proof.
  induction l as [|x l IH]; intros valid errored H.
  - cbn. by rewrite app_nil_r.
  - apply Forall_cons in H as [Hx H]. cbn [partition_loop].
    rewrite Hx, IH by done. by rewrite <- app_assoc.
Qed.

Lemma partition_loop_all_errored l : forall valid errored,
  Forall (fun r => py_contains (lit "error") r = inr true) l ->
  partition_loop l valid errored = inr (valid, errored ++ l).
Proof.
  induction l as [|x l IH]; intros valid errored H.
  - cbn. by rewrite app_nil_r.
  - apply Forall_cons in H as [Hx H]. cbn [partition_loop].
    rewrite Hx, IH by done. by rewrite <- app_assoc.
Qed.

(** X21. Cleaning what was cleaned changes nothing: [partition] on the
    valid records it returned returns them all as valid, and on the
    errored records it returned returns them all as errored. *)
Theorem partition_of_valid_is_identity
    (records : pyval) (valid errored : list pyval) :
  partition records = inr (valid, errored) ->
  partition (VList valid) = inr (valid, [])
  /\ partition (VList errored) = inr ([], errored).
Proof.
  unfold partition, rbind. intros H.
  destruct (py_iter records) as [e|items]; [discriminate|].
  cbn [py_iter]. split.
  - apply (partition_loop_all_valid valid [] []). apply Forall_forall.
    intros r Hr.
    destruct (partition_loop_valid _ _ _ _ _ H r Hr) as [Hin|Hc]; [|done].
    by apply elem_of_nil in Hin.
  - apply (partition_loop_all_errored errored [] []). apply Forall_forall.
    intros r Hr.
    destruct (partition_loop_errored _ _ _ _ _ H r Hr) as [Hin|Hc]; [|done].
    by apply elem_of_nil in Hin.
Qed.

(** ** When the text of a value cannot be encoded *)

Lemma utf8_encode_elem s c :
  c ∈ s -> scalar_value c = false -> utf8_encode s = None.
Proof.
  intros Hin Hc. induction s as [|a s IH]; [by apply elem_of_nil in Hin|].
  cbn [utf8_encode]. apply elem_of_cons in Hin as [<-|Hin].
  - destruct (utf8_encode_char c) as [b|] eqn:E; [|done].
    assert (Hs : is_Some (utf8_encode_char c)) by eauto.
    apply utf8_encode_char_scalar in Hs. congruence.
  - rewrite (IH Hin). by destruct (utf8_encode_char a).
Qed.

Lemma escape_char_not_scalar c : scalar_value c = false -> escape_char c = [c].
Proof.
  unfold scalar_value. intros H. zhyps; try (exfalso; lia);
    unfold escape_char; zbool; by cbn.
Qed.

Lemma forallb_false_elem {A} (f : A -> bool) l :
  forallb f l = false -> exists x, x ∈ l /\ f x = false.
Proof.
  induction l as [|a l IH]; [done|]. cbn. destruct (f a) eqn:E.
  - intros (x & Hx & Hf)%IH. exists x. split; [by right|done].
  - intros _. exists a. split; [left|done].
Qed.

Lemma encode_basestring_not_scalar s :
  forallb scalar_value s = false ->
  exists c, c ∈ encode_basestring s /\ scalar_value c = false.
Proof.
  intros (c & Hc & Hs)%forallb_false_elem. exists c. split; [|done].
  unfold encode_basestring. right. apply elem_of_app. left.
  apply list_elem_of_In, in_flat_map. exists c.
  split; [by apply list_elem_of_In|].
  rewrite (escape_char_not_scalar c Hs). by left.
Qed.

Lemma elem_of_join sep (parts : list pystr) p c :
  p ∈ parts -> c ∈ p -> c ∈ join sep parts.
Proof.
  intros Hp Hc. induction parts as [|q [|q' parts] IH];
    [by apply elem_of_nil in Hp| |].
  - apply list_elem_of_singleton in Hp as <-. done.
  - cbn [join]. apply elem_of_cons in Hp as [<-|Hp].
    + apply elem_of_app. by left.
    + apply elem_of_app. right. apply elem_of_app. right. by apply IH.
Qed.

(** A string with a code point that is no scalar value leaves that code
    point in the text of the value. *)
Lemma pretty_json_not_scalar v : forall level,
  strings_all scalar_value v = false ->
  exists c, c ∈ pretty_json level v /\ scalar_value c = false.
Proof.
  induction v as [| b | n | f | s | l IH | d IH] using pyval_nested_ind;
    intros level H; try discriminate.
  - by apply encode_basestring_not_scalar.
  - cbn [strings_all] in H. apply forallb_false_elem in H as (x & Hx & Hf).
    rewrite Forall_forall in IH.
    destruct (IH x Hx (S level) Hf) as (c & Hc & Hs). exists c. split; [|done].
    destruct l as [|y l]; [by apply elem_of_nil in Hx|].
    cbn [pretty_json]. right. apply elem_of_app. right.
    apply elem_of_app. left.
    apply (elem_of_join _ _ (pretty_json (S level) x)); [|done].
    apply list_elem_of_In, in_map. by apply list_elem_of_In.
  - cbn [strings_all] in H. apply forallb_false_elem in H as (kv & Hx & Hf).
    rewrite Forall_forall in IH.
    assert (Hitem : exists c,
      c ∈ encode_basestring (fst kv) ++ [58; 32]
           ++ pretty_json (S level) (snd kv)
      /\ scalar_value c = false).
    { apply andb_false_iff in Hf as [Hk|Hv].
      - destruct (encode_basestring_not_scalar _ Hk) as (c & Hc & Hs).
        exists c. split; [|done]. apply elem_of_app. by left.
      - destruct (IH kv Hx (S level) Hv) as (c & Hc & Hs).
        exists c. split; [|done]. apply elem_of_app. right.
        by do 2 right. }
    destruct Hitem as (c & Hc & Hs). exists c. split; [|done].
    destruct d as [|y d]; [by apply elem_of_nil in Hx|].
    cbn [pretty_json]. right. apply elem_of_app. right.
    apply elem_of_app. left.
    apply (elem_of_join _ _ _ _
             ltac:(apply list_elem_of_In,
                     (in_map (fun kv => encode_basestring (fst kv) ++ [58; 32]
                                ++ pretty_json (S level) (snd kv)));
                   apply list_elem_of_In; exact Hx) Hc).
Qed.

(** X22. [json.dump] to a UTF-8 file ends normally exactly when no
    string of the value, key or not, holds a code point that is not a
    Unicode scalar value (a surrogate); otherwise it raises. *)
Theorem dump_succeeds_iff_no_surrogate
    (obj : pyval) (path : string) (w : world) :
  snd (dump_to obj path w) = inr tt
  <-> strings_all scalar_value obj = true.
Proof.
  rewrite dump_to_outcome. split.
  - destruct (strings_all scalar_value obj) eqn:E; [done|].
    destruct (pretty_json_not_scalar obj 0 E) as (c & Hc & Hs).
    rewrite <- dumps_pretty in Hc.
    by rewrite (utf8_encode_elem _ c Hc Hs).
  - intros H. destruct (pretty_json_encodable 0 obj H) as [bytes Hb].
    by rewrite dumps_pretty, Hb.
Qed.

(** X23. How a run ends depends on the input file and on whether there
    is a backup file, and on nothing else: not on the cleaned file of an
    earlier run, not on the other files, not on the console. *)
Theorem outcome_depends_on_input_and_backup (w w' : world) :
  files w !! input_file = files w' !! input_file ->
  (is_Some (files w !! backup_file) <-> is_Some (files w' !! backup_file)) ->
  snd (clean_json w) = snd (clean_json w').
Proof.
  intros Hi Hb. rewrite !clean_json_outcome.
  rewrite (input_only_load w w' Hi).
  by rewrite (bool_decide_ext _ _ Hb).
Qed.

End RoundTrip.
End Correctness.

(** ** The claims on the scenario *)

#[global] Existing Instance one_float.

Lemma one_float_laws : @float_laws one_float.
Proof. split; intros f; try done; by destruct f. Qed.

Example scenario_loads : loads scenario_text = inr (VList scenario).
Proof. by vm_compute. Qed.

Example record_cut_loads :
  loads (jlit "[{'asin': 'A1', 'title': '\ud83d'}]") = inr (VList [record_cut]).
Proof. by vm_compute. Qed.

(** C1 on the scenario: the first record is valid, the second errored. *)
Lemma partition_stable_split_witness :
  is_dataset scenario
  /\ exists valid errored,
       partition (VList scenario) = inr (valid, errored)
       /\ valid = [record_A1] /\ errored = [record_A2]
       /\ (length valid + length errored = length scenario)%nat.
Proof.
  split; [reflexivity|].
  destruct (partition_stable_split scenario eq_refl)
    as (valid & errored & Hp & Hv & He & _ & _ & Hlen & _).
  exists valid, errored. repeat split; [exact Hp| | |exact Hlen].
  - rewrite Hv. by vm_compute.
  - rewrite He. by vm_compute.
Defined.

(** C2 on the scenario. *)
Lemma partition_by_error_key_witness :
  is_dataset scenario
  /\ exists valid errored,
       partition (VList scenario) = inr (valid, errored)
       /\ record_A2 ∈ errored /\ record_A1 ∈ valid.
Proof.
  split; [reflexivity|].
  destruct (partition_by_error_key scenario eq_refl)
    as (valid & errored & Hp & Hcls & _).
  exists valid, errored. split; [exact Hp|]. split.
  - assert (Hin : record_A2 ∈ scenario) by (apply list_elem_of_In; simpl; auto).
    apply (Hcls _ Hin). by eexists.
  - assert (Hin : record_A1 ∈ scenario) by (apply list_elem_of_In; simpl; auto).
    apply (Hcls _ Hin). reflexivity.
Defined.



(** C4 on a record whose title is not ASCII, over a file that is there
    already. *)
Lemma writeCleaned_writes_pretty_utf8_witness :
  @float_laws one_float
  /\ strings_all scalar_value (VList [record_cafe]) = true
  /\ writeCleaned [record_cafe] output_file
       (World {[ output_file := lit "old" ]} [])
     = (World {[ output_file :=
                   [91; 10] ++ lit "    {" ++ [10]
                   ++ jlit "        'title': 'caf" ++ [195; 169; 34; 10]
                   ++ lit "    }" ++ [10; 93] ]} [],
        inr tt).
Proof.
  split; [exact one_float_laws|]. split; [reflexivity|].
  destruct (writeCleaned_writes_pretty_utf8 one_float_laws
              [record_cafe] output_file eq_refl) as (bytes & Henc & Hw & _).
  rewrite Hw. vm_compute in Henc. injection Henc as <-. by vm_compute.
Defined.

(** C4. On a valid record with a lone surrogate in a string,
    [writeCleaned] raises [UnicodeEncodeError]; the file is left with the
    text up to that string, which is not a JSON array. *)
Lemma writeCleaned_raises_on_surrogate :
  writeCleaned [record_cut] output_file (World ∅ [])
  = (World {[ output_file :=
                [91; 10] ++ lit "    {" ++ [10]
                ++ jlit "        'asin': 'A1'," ++ [10]
                ++ jlit "        'title': " ]} [],
     inl UnicodeEncodeError).
Proof. by vm_compute. Qed.

(** C5 on the scenario. *)
Lemma cleaned_file_loads_back_witness :
  @float_laws one_float
  /\ distinct_keys (VList scenario) = true
  /\ strings_all scalar_value (VList scenario) = true
  /\ snd (load output_file
            (fst (writeCleaned scenario output_file (World ∅ []))))
     = inr (VList scenario).
Proof.
  split; [exact one_float_laws|]. split; [by vm_compute|].
  split; [by vm_compute|].
  destruct (cleaned_file_loads_back one_float_laws scenario output_file
              (World ∅ []) ltac:(by vm_compute) ltac:(by vm_compute))
    as [_ Hl].
  by rewrite Hl.
Defined.

(** C5. The file [writeCleaned] leaves for that record does not parse. *)
Lemma truncated_file_does_not_load :
  snd (load output_file
         (fst (writeCleaned [record_cut] output_file (World ∅ []))))
  = inl JSONDecodeError.
Proof. by vm_compute. Qed.

(** C6 on the scenario, with a backup file that is there already. *)
Lemma backup_written_once_witness :
  let w := World {[ input_file := scenario_text;
                    backup_file := lit "old backup" ]} [] in
  files w !! backup_file = Some (lit "old backup")
  /\ files (fst (clean_json w)) !! backup_file = Some (lit "old backup").
Proof.
  split; [reflexivity|].
  apply (proj1 (proj2 (@backup_written_once one_float))). reflexivity.
Defined.

(** C7 on the scenario, with no backup file. *)
Lemma backup_holds_full_dataset_witness :
  @float_laws one_float
  /\ strings_all scalar_value (VList scenario) = true
  /\ exists bytes,
       utf8_encode (pretty_json 0 (VList scenario)) = Some bytes
       /\ files (fst (maybeBackup (VList scenario) backup_file (World ∅ [])))
            !! backup_file = Some bytes.
Proof.
  split; [exact one_float_laws|]. split; [by vm_compute|].
  destruct (proj1 (backup_holds_full_dataset one_float_laws)
              (VList scenario) backup_file (World ∅ [])
              ltac:(by vm_compute) ltac:(by vm_compute))
    as (bytes & Henc & Hm & _).
  exists bytes. split; [exact Henc|]. rewrite Hm. cbn [fst files].
  apply lookup_insert_eq.
Defined.

(** C7. An errored record with a lone surrogate in a field that is not
    printed: the cleaned file is written, then the backup raises
    [UnicodeEncodeError] and leaves a backup file that holds the
    beginning of the dataset only; a second run finds that file and
    leaves it as it is. *)
Lemma backup_raises_on_surrogate :
  let w := input_world
             (jlit "[{'asin': 'A2', 'error': 'timeout', 'title': '\ud83d'}]") in
  snd (clean_json w) = inl UnicodeEncodeError
  /\ files (fst (clean_json w)) !! output_file = Some [91; 93]
  /\ files (fst (clean_json w)) !! backup_file
     = Some ([91; 10] ++ lit "    {" ++ [10]
             ++ jlit "        'asin': 'A2'," ++ [10]
             ++ jlit "        'error': 'timeout'," ++ [10]
             ++ jlit "        'title': ")
  /\ snd (clean_json (fst (clean_json w))) = inr tt
  /\ files (fst (clean_json (fst (clean_json w)))) !! backup_file
     = files (fst (clean_json w)) !! backup_file.
Proof. by vm_compute. Qed.




(** C10 on the errored record of the scenario. *)
Lemma unknown_error_fallback_unreachable_witness :
  partition (VList scenario) = inr ([record_A1], [record_A2])
  /\ ((is_record record_A2 = false
       /\ py_get record_A2 (lit "error") (VStr (lit "Unknown error"))
          = inl AttributeError)
      \/ exists d v,
           record_A2 = VDict d
           /\ dict_get (lit "error") d = Some v
           /\ py_get record_A2 (lit "error") (VStr (lit "Unknown error"))
              = inr v).
Proof.
  split; [by vm_compute|].
  apply (unknown_error_fallback_unreachable (VList scenario)
           [record_A1] [record_A2]); [by vm_compute|apply list_elem_of_In; simpl; auto].
Defined.

(** ** The further properties on the scenario *)

(** X1 when there is no input file. *)
Lemma load_failure_ends_the_run_witness :
  snd (load input_file (World ∅ [])) = inl FileNotFoundError
  /\ clean_json (World ∅ [])
     = (World (files (World ∅ []))
          (console (World ∅ [])
           ++ [lit " Loading " ++ lit input_file ++ lit "..."]),
        inl FileNotFoundError).
Proof.
  split; [by vm_compute|].
  apply (load_failure_ends_the_run (World ∅ []) FileNotFoundError).
  by vm_compute.
Defined.

(** X2 on the document [42]. *)
Lemma scalar_document_raises_TypeError_witness :
  snd (load input_file (input_world (lit "42"))) = inr (VInt 42)
  /\ supports_in (VInt 42) = false
  /\ clean_json (input_world (lit "42"))
     = (World (files (input_world (lit "42")))
          (console (input_world (lit "42"))
           ++ [lit " Loading " ++ lit input_file ++ lit "..."]),
        inl TypeError).
Proof.
  split; [by vm_compute|]. split; [by vm_compute|].
  apply (scalar_document_raises_TypeError (input_world (lit "42")) (VInt 42));
    by vm_compute.
Defined.

(** X3 when there is no input file and an old cleaned file. *)
Lemma failure_before_writing_changes_no_file_witness :
  snd (clean_json (World {[ output_file := lit "old" ]} []))
  = inl FileNotFoundError
  /\ FileNotFoundError <> UnicodeEncodeError
  /\ files (fst (clean_json (World {[ output_file := lit "old" ]} [])))
     = files (World {[ output_file := lit "old" ]} []).
Proof.
  split; [by vm_compute|]. split; [discriminate|].
  apply (failure_before_writing_changes_no_file
           (World {[ output_file := lit "old" ]} []) FileNotFoundError);
    [by vm_compute|discriminate].
Defined.

(** X4 on the input file of the scenario. *)
Lemma script_touches_two_files_only_witness :
  input_file <> output_file
  /\ input_file <> backup_file
  /\ files (fst (clean_json (input_world scenario_text))) !! input_file
     = files (input_world scenario_text) !! input_file.
Proof.
  split; [discriminate|]. split; [discriminate|].
  apply (script_touches_two_files_only (input_world scenario_text)
           input_file); discriminate.
Defined.

(** X5 on the input file of the scenario. *)
Lemma script_deletes_no_file_witness :
  is_Some (files (input_world scenario_text) !! input_file)
  /\ is_Some (files (fst (clean_json (input_world scenario_text)))
                !! input_file).
Proof.
  assert (H : is_Some (files (input_world scenario_text) !! input_file)).
  { exists scenario_text. by vm_compute. }
  split; [exact H|].
  apply (script_deletes_no_file (input_world scenario_text) input_file H).
Defined.

(** X7 on a run that died while it wrote the backup. *)
Lemma rerun_ends_normally_witness :
  snd (clean
         (input_world
            (jlit "[{'asin': 'A2', 'error': 'timeout', 'title': '\ud83d'}]")))
  = inr (VList [VDict [(lit "asin", VStr (lit "A2"));
                       (lit "error", VStr (lit "timeout"));
                       (lit "title", VStr [0xD83D])]])
  /\ snd (clean_json
            (input_world
               (jlit "[{'asin': 'A2', 'error': 'timeout', 'title': '\ud83d'}]")))
     = inl UnicodeEncodeError
  /\ snd (clean_json
            (fst (clean_json
                    (input_world
                       (jlit "[{'asin': 'A2', 'error': 'timeout', 'title': '\ud83d'}]")))))
     = inr tt.
Proof.
  split; [by vm_compute|]. split; [by vm_compute|].
  apply (rerun_ends_normally
           (input_world
              (jlit "[{'asin': 'A2', 'error': 'timeout', 'title': '\ud83d'}]"))
           (VList [VDict [(lit "asin", VStr (lit "A2"));
                          (lit "error", VStr (lit "timeout"));
                          (lit "title", VStr [0xD83D])]])).
  by vm_compute.
Defined.

(** X8 on the scenario: two records loaded, one valid, one errored. *)
Lemma console_of_a_normal_run_witness :
  snd (clean_json (input_world scenario_text)) = inr tt
  /\ exists records valid errored,
       snd (load input_file (input_world scenario_text)) = inr records
       /\ partition records = inr (valid, errored)
       /\ py_len records = inr (Z.of_nat (length valid + length errored)).
Proof.
  split; [by vm_compute|].
  destruct (console_of_a_normal_run (input_world scenario_text)
              ltac:(by vm_compute))
    as (records & valid & errored & Hl & Hp & Hn & _).
  by exists records, valid, errored.
Defined.

(** X9 on the scenario written in two ways. *)
Lemma same_value_same_cleaned_file_witness :
  snd (load input_file (input_world scenario_text))
  = snd (load input_file
           (input_world
              (jlit "[ {'asin' : 'A1' , 'title' : 'x'} , {'asin':'A2','error':'timeout after 30s while fetching page details for item'} ]")))
  /\ snd (clean_json (input_world scenario_text)) = inr tt
  /\ snd (clean_json
            (input_world
               (jlit "[ {'asin' : 'A1' , 'title' : 'x'} , {'asin':'A2','error':'timeout after 30s while fetching page details for item'} ]")))
     = inr tt
  /\ files (fst (clean_json (input_world scenario_text))) !! output_file
     = files
         (fst (clean_json
                 (input_world
                    (jlit "[ {'asin' : 'A1' , 'title' : 'x'} , {'asin':'A2','error':'timeout after 30s while fetching page details for item'} ]"))))
       !! output_file.
Proof.
  split; [by vm_compute|]. split; [by vm_compute|]. split; [by vm_compute|].
  apply (same_value_same_cleaned_file
           (input_world scenario_text)
           (input_world
              (jlit "[ {'asin' : 'A1' , 'title' : 'x'} , {'asin':'A2','error':'timeout after 30s while fetching page details for item'} ]")));
    by vm_compute.
Defined.


(** X12 on the errored record of the scenario, whose error has 54
    characters. *)
Lemma short_error_is_printed_whole_witness :
  dict_get (lit "error")
    [(lit "asin", VStr (lit "A2"));
     (lit "error",
      VStr (lit "timeout after 30s while fetching page details for item"))]
  = Some (VStr (lit "timeout after 30s while fetching page details for item"))
  /\ (length (lit "timeout after 30s while fetching page details for item")
      <= 80)%nat
  /\ error_line
       (VDict
          [(lit "asin", VStr (lit "A2"));
           (lit "error",
            VStr (lit "timeout after 30s while fetching page details for item"))])
     = inr (lit "   " ++ bullet ++ lit " "
            ++ match
                 dict_get (lit "asin")
                   [(lit "asin", VStr (lit "A2"));
                    (lit "error",
                     VStr (lit "timeout after 30s while fetching page details for item"))]
               with
               | Some asin => py_str asin
               | None => lit "Unknown"
               end
            ++ lit ": "
            ++ lit "timeout after 30s while fetching page details for item"
            ++ lit "...").
Proof.
  split; [by vm_compute|]. split; [vm_compute; lia|].
  apply (short_error_is_printed_whole
           [(lit "asin", VStr (lit "A2"));
            (lit "error",
             VStr (lit "timeout after 30s while fetching page details for item"))]
           (lit "timeout after 30s while fetching page details for item"));
    [by vm_compute|vm_compute; lia].
Defined.

(** X13 on the valid record of the scenario. *)
Lemma missing_error_key_prints_default_witness :
  dict_get (lit "error")
    [(lit "asin", VStr (lit "A1")); (lit "title", VStr (lit "x"))] = None
  /\ error_line
       (VDict [(lit "asin", VStr (lit "A1")); (lit "title", VStr (lit "x"))])
     = inr (lit "   " ++ bullet ++ lit " "
            ++ match
                 dict_get (lit "asin")
                   [(lit "asin", VStr (lit "A1"));
                    (lit "title", VStr (lit "x"))]
               with
               | Some asin => py_str asin
               | None => lit "Unknown"
               end
            ++ lit ": Unknown error...").
Proof.
  split; [by vm_compute|].
  apply (missing_error_key_prints_default
           [(lit "asin", VStr (lit "A1")); (lit "title", VStr (lit "x"))]).
  by vm_compute.
Defined.

(** X14 on the record with half a surrogate pair. *)
Lemma failed_dump_leaves_a_prefix_witness :
  snd (dump_to (VList [record_cut]) output_file (World ∅ []))
  = inl UnicodeEncodeError
  /\ exists k chunk bytes,
       iterencode (VList [record_cut]) 0 !! k = Some chunk
       /\ utf8_encode chunk = None
       /\ utf8_encode (concat (take k (iterencode (VList [record_cut]) 0)))
          = Some bytes
       /\ fst (dump_to (VList [record_cut]) output_file (World ∅ []))
          = World (<[output_file := bytes]> (files (World ∅ [])))
              (console (World ∅ [])).
Proof.
  split; [by vm_compute|].
  apply (failed_dump_leaves_a_prefix (VList [record_cut]) output_file
           (World ∅ []) UnicodeEncodeError).
  by vm_compute.
Defined.

(** X15 on an object that has the key [a] twice. *)
Lemma load_builds_distinct_keys_witness :
  snd (load input_file (input_world (jlit "{'a': 1, 'a': 2}")))
  = inr (VDict [(lit "a", VInt 2)])
  /\ distinct_keys (VDict [(lit "a", VInt 2)]) = true.
Proof.
  split; [by vm_compute|].
  apply (load_builds_distinct_keys input_file
           (input_world (jlit "{'a': 1, 'a': 2}"))).
  by vm_compute.
Defined.

(** X16 on the scenario. *)
Lemma cleaned_file_of_a_run_loads_back_witness :
  @float_laws one_float
  /\ snd (clean (input_world scenario_text)) = inr (VList scenario)
  /\ exists valid errored,
       partition (VList scenario) = inr (valid, errored)
       /\ snd (load output_file (fst (clean_json (input_world scenario_text))))
          = inr (VList valid).
Proof.
  split; [exact one_float_laws|]. split; [by vm_compute|].
  apply (cleaned_file_of_a_run_loads_back one_float_laws
           (input_world scenario_text) (VList scenario)).
  by vm_compute.
Defined.

(** X17 on the scenario. *)
Lemma backup_of_a_run_loads_back_witness :
  @float_laws one_float
  /\ snd (clean_json (input_world scenario_text)) = inr tt
  /\ files (input_world scenario_text) !! backup_file = None
  /\ exists records,
       snd (load input_file (input_world scenario_text)) = inr records
       /\ snd (load backup_file (fst (clean_json (input_world scenario_text))))
          = inr records.
Proof.
  split; [exact one_float_laws|]. split; [by vm_compute|].
  split; [by vm_compute|].
  apply (backup_of_a_run_loads_back one_float_laws
           (input_world scenario_text)); by vm_compute.
Defined.

(** X18 on the empty list after a byte order mark. *)
Lemma byte_order_mark_is_refused_witness :
  files (input_world ([0xEF; 0xBB; 0xBF] ++ lit "[]")) !! input_file
  = Some (0xEF :: 0xBB :: 0xBF :: lit "[]")
  /\ (snd (clean_json (input_world ([0xEF; 0xBB; 0xBF] ++ lit "[]")))
      = inl UnicodeDecodeError
      \/ snd (clean_json (input_world ([0xEF; 0xBB; 0xBF] ++ lit "[]")))
         = inl JSONDecodeError)
  /\ files (fst (clean_json (input_world ([0xEF; 0xBB; 0xBF] ++ lit "[]"))))
     = files (input_world ([0xEF; 0xBB; 0xBF] ++ lit "[]")).
Proof.
  split; [by vm_compute|].
  apply (byte_order_mark_is_refused
           (input_world ([0xEF; 0xBB; 0xBF] ++ lit "[]")) (lit "[]")).
  by vm_compute.
Defined.

(** X19 on an input file that holds the empty list. *)
Lemma empty_dataset_run_witness :
  snd (load input_file (input_world (lit "[]"))) = inr (VList [])
  /\ snd (clean_json (input_world (lit "[]"))) = inr tt.
Proof.
  split; [by vm_compute|].
  rewrite (empty_dataset_run (input_world (lit "[]")) ltac:(by vm_compute)).
  reflexivity.
Defined.

(** X20 on a document that is an object with the key [error]. *)
Lemma non_dict_errored_record_raises_witness :
  snd (load input_file (input_world (jlit "{'error': 1}")))
  = inr (VDict [(lit "error", VInt 1)])
  /\ partition (VDict [(lit "error", VInt 1)])
     = inr ([], [VStr (lit "error")])
  /\ is_record (VStr (lit "error")) = false
  /\ snd (clean_json (input_world (jlit "{'error': 1}"))) = inl AttributeError
  /\ files (fst (clean_json (input_world (jlit "{'error': 1}"))))
     = files (input_world (jlit "{'error': 1}")).
Proof.
  split; [by vm_compute|]. split; [by vm_compute|]. split; [by vm_compute|].
  apply (non_dict_errored_record_raises
           (input_world (jlit "{'error': 1}"))
           (VDict [(lit "error", VInt 1)]) (VStr (lit "error")) [] []);
    by vm_compute.
Defined.

(** X21 on the scenario. *)
Lemma partition_of_valid_is_identity_witness :
  partition (VList scenario) = inr ([record_A1], [record_A2])
  /\ partition (VList [record_A1]) = inr ([record_A1], [])
  /\ partition (VList [record_A2]) = inr ([], [record_A2]).
Proof.
  split; [by vm_compute|].
  apply (partition_of_valid_is_identity (VList scenario)
           [record_A1] [record_A2]).
  by vm_compute.
Defined.

(** X22 on a record of the scenario. *)
Lemma dump_succeeds_iff_no_surrogate_witness :
  @float_laws one_float
  /\ strings_all scalar_value record_A1 = true
  /\ snd (dump_to record_A1 output_file (World ∅ [])) = inr tt.
Proof.
  split; [exact one_float_laws|]. split; [by vm_compute|].
  apply (dump_succeeds_iff_no_surrogate one_float_laws
           record_A1 output_file (World ∅ [])).
  by vm_compute.
Defined.

(** X23 on the scenario, with and without an old cleaned file. *)
Lemma outcome_depends_on_input_and_backup_witness :
  files (input_world scenario_text) !! input_file
  = files (World {[ input_file := scenario_text; output_file := lit "old" ]}
             [lit "earlier"]) !! input_file
  /\ (is_Some (files (input_world scenario_text) !! backup_file)
      <-> is_Some (files (World {[ input_file := scenario_text;
                                   output_file := lit "old" ]}
                            [lit "earlier"]) !! backup_file))
  /\ snd (clean_json (input_world scenario_text))
     = snd (clean_json
              (World {[ input_file := scenario_text;
                        output_file := lit "old" ]} [lit "earlier"])).
Proof.
  assert (Hb : is_Some (files (input_world scenario_text) !! backup_file)
               <-> is_Some (files (World {[ input_file := scenario_text;
                                            output_file := lit "old" ]}
                                     [lit "earlier"]) !! backup_file)).
  { split; intros [x Hx]; vm_compute in Hx; discriminate. }
  split; [by vm_compute|]. split; [exact Hb|].
  apply (outcome_depends_on_input_and_backup
           (input_world scenario_text)
           (World {[ input_file := scenario_text; output_file := lit "old" ]}
              [lit "earlier"])); [by vm_compute|exact Hb].
Defined.
